(** * Reminder Agent: the scheduling and firing core of backend/main.py

    A shallow embedding of the reminder store, the timer registry and the
    notifier of [backend/main.py], with the properties of the specification
    stated over it.

    Conventions of the embedding.
    - Unix timestamps and every other Python [int] are unbounded integers
      ([Z]); the 64-bit range of SQLite's INTEGER columns is not modelled.
      A [datetime] is kept at whole-second resolution.
      [datetime.utcfromtimestamp] raises outside the years 1 to 9999, as
      Python's does; the datetime of a request payload is taken as parsed.
    - The two SQLite tables are lists of rows in insertion order.  Each SQL
      statement of the source is a constructor of [statement] with the
      meaning SQLite gives it ([WHERE id=?] selects every row with that id,
      the PRIMARY KEY makes an INSERT with a used id fail).
    - The APScheduler job store is a list of jobs.  [remove_job] raises
      [JobLookupError] when no job has the id and [add_job] raises
      [ConflictingIdError] when one has, as the library does.
    - A function of the source that touches the database, the job store,
      SMTP or standard output is a computation in the monad [M]: it maps a
      [world] to the world after it and either the value returned or the
      exception raised.  The world keeps a [log] of the effects in the order
      they happened (SQL commits, SMTP sessions, printed lines).
    - A job keeps as its run date the [datetime] handed to the scheduler;
      the instant the scheduler derives from a naive one, which depends on
      the time zone it runs in, is not modelled.  Timers expire in any
      order: the passing of time is not modelled either, and requests and
      expiries happen one after the other.
    - [time.time()], [uuid4()], the local UTC offset and the outcome of an
      SMTP session are inputs of the functions that use them. *)

From Stdlib Require Import String ZArith List Bool Lia Sorted.
Import ListNotations.
Open Scope string_scope.
Open Scope list_scope.
Open Scope Z_scope.

(** ** Values *)

(** A [datetime]: the reading of a wall clock in seconds after
    1970-01-01T00:00:00 on that clock, and the clock's offset from UTC when
    the value is timezone-aware ([tzinfo]). *)
Record datetime := mk_datetime {
  wall_clock : Z;
  tzinfo : option Z
}.

(** [int(dt.timestamp())]: a naive datetime is read in the local zone of the
    process, whose offset from UTC is [local_utcoffset]. *)
Definition timestamp (local_utcoffset : Z) (dt : datetime) : Z :=
  match tzinfo dt with
  | Some off => wall_clock dt - off
  | None => wall_clock dt - local_utcoffset
  end.

(** A row of the table [reminders]; the columns of [init_db]. *)
Record reminder := mk_reminder {
  id : string;
  user_id : Z;
  title : string;
  body : option string;
  when_ts : Z;
  created_at : Z;
  status : string;
  snooze_until : option Z;
  recurrence : option string;
  repeat_interval : option Z;
  category : option string;
  tags : option string
}.

(** A row of the table [users]. *)
Record user := mk_user {
  uid : Z;
  email : string;
  password_hash : string;
  registered_at : Z
}.

(** A job of the scheduler: [add_job(func=notifier_notify, trigger=
    DateTrigger(run_date), id=job_id, args=[reminder_id])]. *)
Record job := mk_job {
  job_id : string;
  run_date : datetime;
  args : string
}.

(** The message handed to [send_email].  The body of the source is the
    f-string [{rem['body']}\n\nScheduled for: {...isoformat()}]; its two
    holes are kept apart instead of being rendered. *)
Record message := mk_message {
  msg_to : string;
  msg_subject : string;
  msg_text : option string;
  msg_scheduled_for : datetime
}.

(** Exceptions the modelled code raises. *)
Inductive exn :=
| HTTPException (status_code : Z) (detail : string)
| IntegrityError
| JobLookupError
| ConflictingIdError
| SMTPException
| ValueError.

(** The write statements of the source, one constructor per SQL text. *)
Inductive statement :=
| INSERT_reminder (r : reminder)
| UPDATE_status (st : string) (rid : string)
| UPDATE_when_scheduled (next_ts : Z) (rid : string)
| UPDATE_snooze (new_ts : Z) (rid : string)
| DELETE_reminder (rid : string).

(** Lines written to standard output. *)
Inductive printed :=
| Reminder_not_found (reminder_id : string)
| SMTP_not_configured
| SMTP_send_failed
| Scheduled (jid : string) (when_dt : datetime).

(** Effects, as they are recorded in the log of the world. *)
Inductive event :=
| Committed (s : statement)
| Smtp_session (m : message) (delivered : bool)
| Print (p : printed).

(** ** The reminders table *)

Definition set_status (st : string) (r : reminder) : reminder :=
  mk_reminder (id r) (user_id r) (title r) (body r) (when_ts r) (created_at r)
    st (snooze_until r) (recurrence r) (repeat_interval r) (category r) (tags r).

Definition set_when_scheduled (next_ts : Z) (r : reminder) : reminder :=
  mk_reminder (id r) (user_id r) (title r) (body r) next_ts (created_at r)
    "scheduled" (snooze_until r) (recurrence r) (repeat_interval r)
    (category r) (tags r).

Definition set_snooze (new_ts : Z) (r : reminder) : reminder :=
  mk_reminder (id r) (user_id r) (title r) (body r) new_ts (created_at r)
    "scheduled" (Some new_ts) (recurrence r) (repeat_interval r)
    (category r) (tags r).

(** [UPDATE reminders SET ... WHERE id=?] *)
Definition update_where_id (rid : string) (f : reminder -> reminder)
  (t : list reminder) : list reminder :=
  map (fun r => if id r =? rid then f r else r)%string t.

(** [SELECT ... FROM reminders WHERE id=?] followed by [fetchone()]. *)
Definition select_by_id (rid : string) (t : list reminder) : option reminder :=
  find (fun r => id r =? rid)%string t.

(** The meaning of a write statement on the table. *)
Definition run_statement (s : statement) (t : list reminder)
  : exn + list reminder :=
  match s with
  | INSERT_reminder r =>
      match select_by_id (id r) t with
      | Some _ => inl IntegrityError
      | None => inr (t ++ [r])
      end
  | UPDATE_status st rid => inr (update_where_id rid (set_status st) t)
  | UPDATE_when_scheduled next_ts rid =>
      inr (update_where_id rid (set_when_scheduled next_ts) t)
  | UPDATE_snooze new_ts rid =>
      inr (update_where_id rid (set_snooze new_ts) t)
  | DELETE_reminder rid =>
      inr (filter (fun r => negb (id r =? rid)%string) t)
  end.

(** ** The world and the monad of effects *)

Record world := mk_world {
  reminders : list reminder;
  users : list user;
  jobs : list job;
  log : list event
}.

Inductive outcome (A : Type) :=
| Returned (a : A)
| Raised (e : exn).
Arguments Returned {A} a.
Arguments Raised {A} e.

Definition M (A : Type) : Type := world -> world * outcome A.

Definition ret {A} (a : A) : M A := fun w => (w, Returned a).

Definition raise {A} (e : exn) : M A := fun w => (w, Raised e).

Definition bind {A B} (c : M A) (k : A -> M B) : M B :=
  fun w =>
    match c w with
    | (w', Returned a) => k a w'
    | (w', Raised e) => (w', Raised e)
    end.

(** [try: c  except Exception as e: h e] *)
Definition try_except {A} (c : M A) (h : exn -> M A) : M A :=
  fun w =>
    match c w with
    | (w', Returned a) => (w', Returned a)
    | (w', Raised e) => h e w'
    end.

Declare Scope effect_scope.
Delimit Scope effect_scope with effect.
Notation "x <- c ;; k" := (bind c (fun x => k))
  (at level 61, c at next level, right associativity) : effect_scope.
Notation "c ;; k" := (bind c (fun _ => k))
  (at level 61, right associativity) : effect_scope.
Open Scope effect_scope.

Definition emit (ev : event) : M unit :=
  fun w => (mk_world (reminders w) (users w) (jobs w) (log w ++ [ev]),
            Returned tt).

Definition print (p : printed) : M unit := emit (Print p).

(** [cur.execute(s); conn.commit()] on a fresh connection: on success the
    table is replaced and the commit is logged, on failure nothing is
    written. *)
Definition execute (s : statement) : M unit :=
  fun w =>
    match run_statement s (reminders w) with
    | inr t' =>
        (mk_world t' (users w) (jobs w) (log w ++ [Committed s]), Returned tt)
    | inl e => (w, Raised e)
    end.

(** ** Dates from timestamps *)

(** The timestamps of 0001-01-01T00:00:00 and of 9999-12-31T23:59:59, the
    first and the last second Python's [datetime] can hold. *)
Definition datetime_min : Z := -62135596800.
Definition datetime_max : Z := 253402300799.

Definition in_datetime_range (ts : Z) : bool :=
  (datetime_min <=? ts) && (ts <=? datetime_max).

(** [datetime.utcfromtimestamp(ts)]: the naive datetime showing UTC.  For a
    timestamp whose year is outside 1 .. 9999 Python raises [ValueError]
    (and, further out, where the C library gives up first, [OverflowError]
    or [OSError]; no caller tells them apart and [ValueError] stands for the
    three). *)
Definition utcfromtimestamp (ts : Z) : M datetime :=
  if in_datetime_range ts then ret (mk_datetime ts None) else raise ValueError.

(** ** Persistence helpers *)

(** [save_reminder_db]; [now] is [int(time.time())]. *)
Definition save_reminder_db (now : Z) (rid : string) (owner : Z)
  (ttl : string) (text : option string) (when_ : Z)
  (rec : option string) (interval : option Z)
  (cat : option string) (tgs : option string) : M unit :=
  execute (INSERT_reminder
             (mk_reminder rid owner ttl text when_ now "scheduled" None
                rec interval cat tgs)).

Definition update_reminder_status (rid : string) (st : string) : M unit :=
  execute (UPDATE_status st rid).

(** [load_reminder]: the dictionary built from the row holds the columns
    id, user_id, title, body, when_ts, created_at, status, recurrence and
    repeat_interval; the callers read no other key, so the row stands for
    it. *)
Definition load_reminder (rid : string) : M (option reminder) :=
  fun w => (w, Returned (select_by_id rid (reminders w))).

Definition get_user_by_id (u : Z) : M (option user) :=
  fun w => (w, Returned (find (fun x => uid x =? u) (users w))).

(** ** Scheduler *)

Definition has_job (jid : string) (js : list job) : bool :=
  existsb (fun j => job_id j =? jid)%string js.

(** The store without the jobs of id [jid]. *)
Definition drop_job (jid : string) (js : list job) : list job :=
  filter (fun j => negb (job_id j =? jid)%string) js.

(** The number of pending timers with a given id. *)
Definition pending (jid : string) (js : list job) : nat :=
  length (filter (fun j => job_id j =? jid)%string js).

(** [scheduler.remove_job(job_id)] *)
Definition remove_job (jid : string) : M unit :=
  fun w =>
    if has_job jid (jobs w)
    then (mk_world (reminders w) (users w) (drop_job jid (jobs w)) (log w),
          Returned tt)
    else (w, Raised JobLookupError).

(** [scheduler.add_job(func=notifier_notify, trigger=..., id=..., args=...)] *)
Definition add_job (j : job) : M unit :=
  fun w =>
    if has_job (job_id j) (jobs w)
    then (w, Raised ConflictingIdError)
    else (mk_world (reminders w) (users w) (jobs w ++ [j]) (log w),
          Returned tt).

Definition job_name (reminder_id : string) : string :=
  ("job_" ++ reminder_id)%string.
Arguments job_name : simpl never.

Definition schedule_job (reminder_id : string) (when_dt : datetime) : M unit :=
  let jid := job_name reminder_id in
  try_except (remove_job jid) (fun _ => ret tt) ;;
  add_job (mk_job jid when_dt reminder_id) ;;
  print (Scheduled jid when_dt).

(** ** Notifier *)

(** The SMTP settings of the process and the fate of an SMTP session
    ([True] when starttls, login and sendmail all succeed, [False] when one
    of them raises). *)
Record smtp := mk_smtp {
  SMTP_HOST : option string;
  smtp_delivers : message -> bool
}.

(** Python's truth value of an optional string and of an optional int. *)
Definition truthy_str (s : option string) : bool :=
  match s with
  | Some s => negb (s =? "")%string
  | None => false
  end.

Definition truthy_int (n : option Z) : bool :=
  match n with
  | Some n => negb (n =? 0)
  | None => false
  end.

(** The [with smtplib.SMTP(...)] block. *)
Definition smtp_session (env : smtp) (m : message) : M unit :=
  fun w =>
    let ok := smtp_delivers env m in
    (mk_world (reminders w) (users w) (jobs w)
       (log w ++ [Smtp_session m ok]),
     if ok then Returned tt else Raised SMTPException).

Definition send_email (env : smtp) (m : message) : M bool :=
  if negb (truthy_str (SMTP_HOST env))
  then print SMTP_not_configured ;; ret false
  else try_except (smtp_session env m ;; ret true)
         (fun _ => print SMTP_send_failed ;; ret false).

(** [if rem.get("repeat_interval"):] holds when the column is neither
    NULL nor zero; the branch then reads the interval. *)
Definition recurring (rem : reminder) : option Z :=
  if truthy_int (repeat_interval rem) then repeat_interval rem else None.

Definition notifier_notify (env : smtp) (reminder_id : string) : M unit :=
  rem <- load_reminder reminder_id ;;
  match rem with
  | None => print (Reminder_not_found reminder_id)
  | Some rem =>
      update_reminder_status reminder_id "fired" ;;
      usr <- get_user_by_id (user_id rem) ;;
      match usr with
      | Some u =>
          scheduled_for <- utcfromtimestamp (when_ts rem) ;;
          _ <- send_email env
                 (mk_message (email u) ("Reminder: " ++ title rem)%string
                    (body rem) scheduled_for) ;;
          ret tt
      | None => ret tt
      end ;;
      match recurring rem with
      | Some interval =>
          let next_ts := when_ts rem + interval in
          execute (UPDATE_when_scheduled next_ts (id rem)) ;;
          when_dt <- utcfromtimestamp next_ts ;;
          schedule_job (id rem) when_dt
      | None => ret tt
      end
  end.

(** ** Endpoints *)

Record ReminderCreateIn := mk_create {
  p_title : string;
  p_body : option string;
  p_when : datetime;
  p_recurrence : option string;
  p_repeat_interval_seconds : option Z;
  p_category : option string;
  p_tags : option string
}.

(** [POST /reminders].  [rid] is [str(uuid4())], [now] the clock read by
    [save_reminder_db], [tz] the local UTC offset used by
    [payload.when.timestamp()].  Returns the id and the scheduled time. *)
Definition create_reminder (tz : Z) (now : Z) (rid : string)
  (payload : ReminderCreateIn) (current_user : user)
  : M (string * datetime) :=
  let when_ := timestamp tz (p_when payload) in
  save_reminder_db now rid (uid current_user) (p_title payload)
    (p_body payload) when_ (p_recurrence payload)
    (p_repeat_interval_seconds payload) (p_category payload)
    (p_tags payload) ;;
  schedule_job rid (p_when payload) ;;
  ret (rid, p_when payload).

(** The guard shared by snooze, cancel and delete:
    [if not rem or rem["user_id"] != current_user["id"]]. *)
Definition not_owned (rem : option reminder) (current_user : user) : bool :=
  match rem with
  | None => true
  | Some r => negb (user_id r =? uid current_user)
  end.

(** [POST /reminders/{rid}/snooze]; [now] is [int(time.time())]. *)
Definition snooze_reminder (now : Z) (rid : string) (minutes : Z)
  (current_user : user) : M (string * datetime) :=
  rem <- load_reminder rid ;;
  if not_owned rem current_user
  then raise (HTTPException 404 "Not found")
  else
    let new_ts := now + minutes * 60 in
    execute (UPDATE_snooze new_ts rid) ;;
    when_dt <- utcfromtimestamp new_ts ;;
    schedule_job rid when_dt ;;
    snoozed_until <- utcfromtimestamp new_ts ;;
    ret (rid, snoozed_until).

(** [POST /reminders/{rid}/cancel] *)
Definition cancel_reminder (rid : string) (current_user : user)
  : M (string * string) :=
  rem <- load_reminder rid ;;
  if not_owned rem current_user
  then raise (HTTPException 404 "Reminder not found")
  else
    update_reminder_status rid "cancelled" ;;
    try_except (remove_job (job_name rid)) (fun _ => ret tt) ;;
    ret (rid, "cancelled").

(** [DELETE /reminders/{rid}] *)
Definition delete_reminder (rid : string) (current_user : user)
  : M (string * string) :=
  rem <- load_reminder rid ;;
  if not_owned rem current_user
  then raise (HTTPException 404 "Reminder not found")
  else
    execute (DELETE_reminder rid) ;;
    try_except (remove_job (job_name rid)) (fun _ => ret tt) ;;
    ret (rid, "deleted").

(** An entry of the list returned by [GET /reminders]. *)
Record listed := mk_listed {
  l_id : string;
  l_title : string;
  l_body : option string;
  l_when : Z;
  l_status : string;
  l_category : option string;
  l_tags : option string
}.

Definition to_listed (r : reminder) : listed :=
  mk_listed (id r) (title r) (body r) (when_ts r) (status r) (category r)
    (tags r).

(** [GET /reminders] *)
Definition get_reminders (current_user : user) : M (list listed) :=
  fun w =>
    (w, Returned
          (map to_listed
             (filter (fun r => user_id r =? uid current_user) (reminders w)))).

(** An entry of ["notifications"] in the answer of [GET /notifications/poll]. *)
Record notification := mk_notification {
  n_id : string;
  n_title : string;
  n_body : option string;
  n_when : Z
}.

Definition to_notification (r : reminder) : notification :=
  mk_notification (id r) (title r) (body r) (when_ts r).

(** [GET /notifications/poll]: [if since:] takes the first query when
    [since] is given and is not zero. *)
Definition poll_notifications (since : option Z) (current_user : user)
  : M (list notification) :=
  fun w =>
    let rows :=
      if truthy_int since
      then filter (fun r => (status r =? "fired")%string
                            && (match since with
                                | Some s => s <? when_ts r
                                | None => false
                                end)
                            && (user_id r =? uid current_user))
             (reminders w)
      else filter (fun r => (status r =? "fired")%string
                            && (user_id r =? uid current_user))
             (reminders w)
    in (w, Returned (map to_notification rows)).

(** ** Timer expiry *)

(** What the scheduler does when the run date of [j] has come: a date
    trigger has no later run, so the job leaves the store, and the executor
    calls [notifier_notify] on the arguments of the job, logging any
    exception it raises. *)
Definition run_job (env : smtp) (j : job) : M unit :=
  try_except (remove_job (job_id j)) (fun _ => ret tt) ;;
  try_except (notifier_notify env (args j)) (fun _ => ret tt).

(** ** The system as a transition system *)

(** What can happen to the world: a request of some user reaches an
    endpoint, or a pending timer expires.  Registration and login only touch
    the table of users. *)
Inductive request :=
| Create (tz now : Z) (rid : string) (payload : ReminderCreateIn) (u : user)
| Snooze (now : Z) (rid : string) (minutes : Z) (u : user)
| Cancel (rid : string) (u : user)
| Delete (rid : string) (u : user)
| Expire (env : smtp) (j : job)
| Auth (us : list user).

Definition perform (q : request) : M unit :=
  match q with
  | Create tz now rid payload u =>
      _ <- create_reminder tz now rid payload u ;; ret tt
  | Snooze now rid minutes u => _ <- snooze_reminder now rid minutes u ;; ret tt
  | Cancel rid u => _ <- cancel_reminder rid u ;; ret tt
  | Delete rid u => _ <- delete_reminder rid u ;; ret tt
  | Expire env j => run_job env j
  | Auth us =>
      fun w => (mk_world (reminders w) us (jobs w) (log w), Returned tt)
  end.

(** Only a pending timer can expire. *)
Definition enabled (q : request) (w : world) : Prop :=
  match q with
  | Expire _ j => In j (jobs w)
  | _ => True
  end.

(** The world after [init_db] on a new database file. *)
Definition initial : world := mk_world [] [] [] [].

Inductive reachable : world -> Prop :=
| reachable_initial : reachable initial
| reachable_step q w :
    reachable w -> enabled q w -> reachable (fst (perform q w)).


(** ** Closed forms used in the proofs *)

(** The message the notifier composes for [rem] and its owner [u]. *)
Definition notice (rem : reminder) (u : user) : message :=
  mk_message (email u) ("Reminder: " ++ title rem)%string (body rem)
    (mk_datetime (when_ts rem) None).

(** What [send_email] leaves in the log. *)
Definition send_email_log (env : smtp) (m : message) : list event :=
  if negb (truthy_str (SMTP_HOST env)) then [Print SMTP_not_configured]
  else if smtp_delivers env m then [Smtp_session m true]
  else [Smtp_session m false; Print SMTP_send_failed].

(** The notifier gets past the composition of the message: the owner is
    unknown, so that nothing is composed, or the due time is a date. *)
Definition composes (rem : reminder) (us : list user) : bool :=
  match find (fun x => uid x =? user_id rem) us with
  | Some _ => in_datetime_range (when_ts rem)
  | None => true
  end.

(** The interval of the re-arming statement, when the notifier reaches it. *)
Definition rearmed (rem : reminder) (us : list user) : option Z :=
  if composes rem us then recurring rem else None.

(** What the delivery step of the notifier leaves in the log. *)
Definition delivery_log (env : smtp) (rem : reminder) (us : list user)
  : list event :=
  match find (fun x => uid x =? user_id rem) us with
  | Some u =>
      if in_datetime_range (when_ts rem)
      then send_email_log env (notice rem u)
      else []
  | None => []
  end.

(** The table, the job store, the log and the outcome after the notifier
    has run on a reminder it found as [rem], the users being [us]. *)
Definition rows_after_fire (rem : reminder) (us : list user)
  (t : list reminder) : list reminder :=
  let fired := update_where_id (id rem) (set_status "fired") t in
  match rearmed rem us with
  | Some i => update_where_id (id rem) (set_when_scheduled (when_ts rem + i)) fired
  | None => fired
  end.

Definition jobs_after_fire (rem : reminder) (us : list user) (js : list job)
  : list job :=
  match rearmed rem us with
  | Some i =>
      if in_datetime_range (when_ts rem + i)
      then drop_job (job_name (id rem)) js
           ++ [mk_job (job_name (id rem)) (mk_datetime (when_ts rem + i) None)
                 (id rem)]
      else js
  | None => js
  end.

Definition rearm_log (rem : reminder) (us : list user) : list event :=
  match rearmed rem us with
  | Some i =>
      Committed (UPDATE_when_scheduled (when_ts rem + i) (id rem))
      :: (if in_datetime_range (when_ts rem + i)
          then [Print (Scheduled (job_name (id rem))
                         (mk_datetime (when_ts rem + i) None))]
          else [])
  | None => []
  end.

Definition fire_log (env : smtp) (rem : reminder) (us : list user)
  : list event :=
  Committed (UPDATE_status "fired" (id rem))
  :: delivery_log env rem us ++ rearm_log rem us.

Definition fire_outcome (rem : reminder) (us : list user) : outcome unit :=
  if composes rem us
  then match recurring rem with
       | Some i =>
           if in_datetime_range (when_ts rem + i)
           then Returned tt
           else Raised ValueError
       | None => Returned tt
       end
  else Raised ValueError.


(** The row [create_reminder] inserts. *)
Definition new_row (tz now : Z) (rid : string) (payload : ReminderCreateIn)
  (current_user : user) : reminder :=
  mk_reminder rid (uid current_user) (p_title payload) (p_body payload)
    (timestamp tz (p_when payload)) now "scheduled" None
    (p_recurrence payload) (p_repeat_interval_seconds payload)
    (p_category payload) (p_tags payload).


(** ** Vocabulary of the statements *)

(** [r'] is [r] in every column except possibly [status]. *)
Definition same_but_status (r r' : reminder) : Prop :=
  id r' = id r /\ user_id r' = user_id r /\ title r' = title r /\
  body r' = body r /\ when_ts r' = when_ts r /\
  created_at r' = created_at r /\ snooze_until r' = snooze_until r /\
  recurrence r' = recurrence r /\ repeat_interval r' = repeat_interval r /\
  category r' = category r /\ tags r' = tags r.

(** No row of the table has the id. *)
Definition absent (rid : string) (t : list reminder) : Prop :=
  forall r, In r t -> id r <> rid.

(** The job store after [schedule_job rid dt]. *)
Definition arm (rid : string) (dt : datetime) (js : list job) : list job :=
  drop_job (job_name rid) js ++ [mk_job (job_name rid) dt rid].


(** The three values of the status column. *)
Definition valid_status (s : string) : Prop :=
  s = "scheduled" \/ s = "fired" \/ s = "cancelled".

(** The status the table shows for an id, as [load_reminder] would. *)
Definition status_of (rid : string) (t : list reminder) : option string :=
  option_map status (select_by_id rid t).

(** The statements committed among a run of events. *)
Definition commits (evs : list event) : list statement :=
  flat_map (fun ev => match ev with Committed s => [s] | _ => [] end) evs.

(** The table after a statement that was committed. *)
Definition apply_statement (t : list reminder) (s : statement)
  : list reminder :=
  match run_statement s t with
  | inr t' => t'
  | inl _ => t
  end.

(** Every change of status that the statements [ss], committed one after
    the other from the table [t], make to some id is one that [ok] admits. *)
Fixpoint audit (ok : statement -> string -> string -> Prop)
  (t : list reminder) (ss : list statement) : Prop :=
  match ss with
  | [] => True
  | s :: ss' =>
      (forall rid a b,
          status_of rid t = Some a ->
          status_of rid (apply_statement t s) = Some b ->
          a <> b -> ok s a b)
      /\ audit ok (apply_statement t s) ss'
  end.

(** The transitions of the specification: scheduled to fired, scheduled to
    cancelled, and fired to scheduled by the re-arming statement of the
    notifier only. *)
Definition specified_transition (s : statement) (a b : string) : Prop :=
  (a = "scheduled" /\ b = "fired") \/
  (a = "scheduled" /\ b = "cancelled") \/
  (a = "fired" /\ b = "scheduled" /\
   exists ts rid, s = UPDATE_when_scheduled ts rid).

(** The transitions of the code, by the statement that makes them. *)
Inductive coded_transition : statement -> string -> string -> Prop :=
| fire_scheduled rid :
    coded_transition (UPDATE_status "fired" rid) "scheduled" "fired"
| cancel_any rid a :
    valid_status a ->
    coded_transition (UPDATE_status "cancelled" rid) a "cancelled"
| snooze_any ts rid a :
    valid_status a ->
    coded_transition (UPDATE_snooze ts rid) a "scheduled"
| rearm_fired ts rid :
    coded_transition (UPDATE_when_scheduled ts rid) "fired" "scheduled".

(** What one enabled request does to the table, the job store and the log,
    case by case. *)
Inductive effect (w : world)
  : list reminder -> list job -> list event -> Prop :=
| effect_none evs :
    commits evs = [] ->
    effect w (reminders w) (jobs w) evs
| effect_create tz now rid p u :
    select_by_id rid (reminders w) = None ->
    effect w (reminders w ++ [new_row tz now rid p u])
      (arm rid (p_when p) (jobs w))
      [Committed (INSERT_reminder (new_row tz now rid p u));
       Print (Scheduled (job_name rid) (p_when p))]
| effect_snooze ts rid :
    effect w (update_where_id rid (set_snooze ts) (reminders w))
      (arm rid (mk_datetime ts None) (jobs w))
      [Committed (UPDATE_snooze ts rid);
       Print (Scheduled (job_name rid) (mk_datetime ts None))]
| effect_snooze_raised ts rid :
    effect w (update_where_id rid (set_snooze ts) (reminders w)) (jobs w)
      [Committed (UPDATE_snooze ts rid)]
| effect_cancel rid :
    effect w (update_where_id rid (set_status "cancelled") (reminders w))
      (drop_job (job_name rid) (jobs w))
      [Committed (UPDATE_status "cancelled" rid)]
| effect_delete rid :
    effect w (filter (fun r => negb (id r =? rid)%string) (reminders w))
      (drop_job (job_name rid) (jobs w))
      [Committed (DELETE_reminder rid)]
| effect_expire_missing j :
    In j (jobs w) ->
    select_by_id (args j) (reminders w) = None ->
    effect w (reminders w) (drop_job (job_id j) (jobs w))
      [Print (Reminder_not_found (args j))]
| effect_expire env j rem :
    In j (jobs w) ->
    select_by_id (args j) (reminders w) = Some rem ->
    effect w (rows_after_fire rem (users w) (reminders w))
      (jobs_after_fire rem (users w) (drop_job (job_id j) (jobs w)))
      (fire_log env rem (users w)).

(** The invariant of the reachable worlds: statuses are among the three
    values, a job is named after the reminder it fires, a reminder with a
    pending timer is scheduled, no id has two pending timers, and no two
    rows share an id. *)
Record consistent (w : world) : Prop := mk_consistent {
  statuses_valid : forall r, In r (reminders w) -> valid_status (status r);
  jobs_named : forall j, In j (jobs w) -> job_id j = job_name (args j);
  timers_scheduled :
    forall j r, In j (jobs w) -> In r (reminders w) -> id r = args j ->
                status r = "scheduled";
  timers_single : forall jid, (pending jid (jobs w) <= 1)%nat;
  ids_unique : NoDup (map id (reminders w))
}.


(** ** Recurrence as iterated expiry *)

(** The pending timer of reminder [rid] expires, if there is one. *)
Definition expire (env : smtp) (rid : string) : M unit :=
  fun w =>
    match find (fun j => job_id j =? job_name rid)%string (jobs w) with
    | Some j => run_job env j w
    | None => (w, Returned tt)
    end.

(** The world after [n] successive expiries of the timer of [rid]. *)
Fixpoint firings (env : smtp) (rid : string) (n : nat) (w : world) : world :=
  match n with
  | O => w
  | S k => firings env rid k (fst (expire env rid w))
  end.

(** The target times the reminder [rid] is given by [n] successive
    expiries of its timer. *)
Fixpoint fire_times (env : smtp) (rid : string) (n : nat) (w : world)
  : list Z :=
  match n with
  | O => []
  | S k =>
      let w' := fst (expire env rid w) in
      match select_by_id rid (reminders w') with
      | Some r => when_ts r :: fire_times env rid k w'
      | None => []
      end
  end.

(** ** Sample data *)

Definition alice : user := mk_user 1 "alice@example.org" "x" 900.
Definition bob : user := mk_user 2 "bob@example.org" "y" 950.

(** A process without SMTP settings, and one whose sessions all fail. *)
Definition no_smtp : smtp := mk_smtp None (fun _ => false).
Definition failing_smtp : smtp := mk_smtp (Some "mail.example.org") (fun _ => false).

(** The payload of the scenario of the specification, sent at time 1000:
    title Standup, due in 60 seconds, repeating every 86400 seconds. *)
Definition standup : ReminderCreateIn :=
  mk_create "Standup" (Some "Daily sync") (mk_datetime 1060 (Some 0))
    (Some "daily") (Some 86400) None None.

(** A reminder that does not repeat. *)
Definition dentist : ReminderCreateIn :=
  mk_create "Dentist" None (mk_datetime 1500 (Some 0)) None None None None.

(** Both users are registered. *)
Definition registered : world := fst (perform (Auth [alice; bob]) initial).

(** Alice has created the standup reminder as r1. *)
Definition with_standup : world :=
  fst (perform (Create 0 1000 "r1" standup alice) registered).

(** The timer of r1 has expired once. *)
Definition standup_fired : world :=
  fst (perform (Expire no_smtp (mk_job (job_name "r1") (p_when standup) "r1"))
         with_standup).

(** Alice and Bob have one reminder each, for the same time. *)
Definition two_owners : world :=
  fst (perform (Create 0 1000 "r2" dentist bob)
         (fst (perform (Create 0 1000 "r1" dentist alice) registered))).

(** Alice's dentist reminder has fired. *)
Definition dentist_fired : world :=
  fst (perform (Expire no_smtp (mk_job (job_name "r1") (p_when dentist) "r1"))
         (fst (perform (Create 0 1000 "r1" dentist alice) registered))).



(** The standup reminder with another interval. *)
Definition standup_every (interval : Z) : ReminderCreateIn :=
  mk_create "Standup" (Some "Daily sync") (mk_datetime 1060 (Some 0))
    (Some "recurring") (Some interval) None None.

(** Alice has created it as r1. *)
Definition with_standup_every (interval : Z) : world :=
  fst (perform (Create 0 1000 "r1" (standup_every interval) alice) registered).




(** The rows [poll_notifications] is to report, in the words of the
    interface: fired, owned by the caller and, when [since] is given and is
    not zero, due after [since]. *)
Definition to_report (since : option Z) (u : user) (r : reminder) : bool :=
  (status r =? "fired")%string
  && (user_id r =? uid u)
  && match since with
     | Some s => (s =? 0) || (s <? when_ts r)
     | None => true
     end.


(** ** Requests case by case *)

(** The table and the job store a request leaves, with what the request
    found in the table. *)
Inductive change : request -> world -> list reminder -> list job -> Prop :=
| change_create_clash tz now rid p u w r :
    select_by_id rid (reminders w) = Some r ->
    change (Create tz now rid p u) w (reminders w) (jobs w)
| change_create tz now rid p u w :
    select_by_id rid (reminders w) = None ->
    change (Create tz now rid p u) w
      (reminders w ++ [new_row tz now rid p u]) (arm rid (p_when p) (jobs w))
| change_snooze_rejected now rid m u w :
    not_owned (select_by_id rid (reminders w)) u = true ->
    change (Snooze now rid m u) w (reminders w) (jobs w)
| change_snooze now rid m u w rem :
    select_by_id rid (reminders w) = Some rem ->
    user_id rem = uid u ->
    in_datetime_range (now + m * 60) = true ->
    change (Snooze now rid m u) w
      (update_where_id rid (set_snooze (now + m * 60)) (reminders w))
      (arm rid (mk_datetime (now + m * 60) None) (jobs w))
| change_snooze_raised now rid m u w rem :
    select_by_id rid (reminders w) = Some rem ->
    user_id rem = uid u ->
    in_datetime_range (now + m * 60) = false ->
    change (Snooze now rid m u) w
      (update_where_id rid (set_snooze (now + m * 60)) (reminders w))
      (jobs w)
| change_cancel_rejected rid u w :
    not_owned (select_by_id rid (reminders w)) u = true ->
    change (Cancel rid u) w (reminders w) (jobs w)
| change_cancel rid u w rem :
    select_by_id rid (reminders w) = Some rem ->
    user_id rem = uid u ->
    change (Cancel rid u) w
      (update_where_id rid (set_status "cancelled") (reminders w))
      (drop_job (job_name rid) (jobs w))
| change_delete_rejected rid u w :
    not_owned (select_by_id rid (reminders w)) u = true ->
    change (Delete rid u) w (reminders w) (jobs w)
| change_delete rid u w rem :
    select_by_id rid (reminders w) = Some rem ->
    user_id rem = uid u ->
    change (Delete rid u) w
      (filter (fun r => negb (id r =? rid)%string) (reminders w))
      (drop_job (job_name rid) (jobs w))
| change_expire_missing env j w :
    select_by_id (args j) (reminders w) = None ->
    change (Expire env j) w (reminders w) (drop_job (job_id j) (jobs w))
| change_expire env j w rem :
    select_by_id (args j) (reminders w) = Some rem ->
    change (Expire env j) w (rows_after_fire rem (users w) (reminders w))
      (jobs_after_fire rem (users w) (drop_job (job_id j) (jobs w)))
| change_auth us w :
    change (Auth us) w (reminders w) (jobs w).

(** Timers and scheduled reminders go together: every pending timer has its
    reminder in the table, and every reminder scheduled for a date has its
    timer. *)
Record synchronised (w : world) : Prop := mk_synchronised {
  timers_have_rows :
    forall j, In j (jobs w) -> exists r, In r (reminders w) /\ id r = args j;
  scheduled_have_timers :
    forall r, In r (reminders w) -> status r = "scheduled" ->
              in_datetime_range (when_ts r) = true ->
              pending (job_name (id r)) (jobs w) = 1%nat
}.


(** The user in whose name a request reaches an endpoint. *)
Definition requester (q : request) : option user :=
  match q with
  | Create _ _ _ _ u => Some u
  | Snooze _ _ _ u => Some u
  | Cancel _ u => Some u
  | Delete _ u => Some u
  | Expire _ _ => None
  | Auth _ => None
  end.


(** The events that are SMTP sessions. *)
Definition is_session (ev : event) : bool :=
  match ev with
  | Smtp_session _ _ => true
  | _ => false
  end.


(** ** Worlds reached by a process in one time zone *)

(** The request reads naive datetimes with the UTC offset [tz]. *)
Definition made_in (tz : Z) (q : request) : Prop :=
  match q with
  | Create tz' _ _ _ _ => tz' = tz
  | _ => True
  end.

(** The worlds a process whose local UTC offset is [tz] can reach. *)
Inductive reachable_in (tz : Z) : world -> Prop :=
| reachable_in_initial : reachable_in tz initial
| reachable_in_step q w :
    reachable_in tz w -> enabled q w -> made_in tz q ->
    reachable_in tz (fst (perform q w)).

(** Every pending timer of a reminder due at a date is for the time the
    reminder is due, when its run date is read as [datetime.timestamp()]
    reads it at offset [tz]. *)
Definition timers_on_time (tz : Z) (w : world) : Prop :=
  forall j r, In j (jobs w) -> In r (reminders w) -> id r = args j ->
              in_datetime_range (when_ts r) = true ->
              timestamp tz (run_date j) = when_ts r.


(** ** Accounts and authentication *)

(** What the code takes from passlib and PyJWT.
    - [verify_password password hashed] is [pwd_ctx.verify];
    - [access_token_for i] is the string returned by
      [create_access_token] for the subject [str(i)] and seven days;
    - [token_subject token] is the outcome of
      [int(decode_token(token).get("sub"))]: the user id the token names,
      or the exception raised on the way ([decode_token] raises the
      HTTP error 401 [Invalid token] for a token PyJWT rejects). *)
Record auth_lib := mk_auth_lib {
  verify_password : string -> string -> bool;
  access_token_for : Z -> string;
  token_subject : string -> outcome Z
}.

Definition get_user_by_email (e : string) : M (option user) :=
  fun w => (w, Returned (find (fun x => email x =? e)%string (users w))).

(** The id that [INTEGER PRIMARY KEY AUTOINCREMENT] gives the next row:
    one more than the largest id the table has held.  The code never
    deletes a user, so that is the largest id in the table (zero when the
    table is empty). *)
Definition next_user_id (us : list user) : Z :=
  1 + fold_right Z.max 0 (map uid us).

(** [INSERT INTO users (email,password_hash,created_at) VALUES (?,?,?)] and
    the commit; the column [email] is UNIQUE.  The log follows the
    reminders table, and has no entry for this commit. *)
Definition insert_user (e phash : string) (now : Z) : M unit :=
  fun w =>
    match find (fun x => email x =? e)%string (users w) with
    | Some _ => (w, Raised IntegrityError)
    | None =>
        (mk_world (reminders w)
           (users w ++ [mk_user (next_user_id (users w)) e phash now])
           (jobs w) (log w),
         Returned tt)
    end.

(** [POST /auth/register]; [phash] is what [hash_password] returns for the
    password of the payload, [now] is [int(time.time())].  Returns the
    value of the key ok. *)
Definition register (now : Z) (phash : string) (payload_email : string)
  : M bool :=
  existing <- get_user_by_email payload_email ;;
  match existing with
  | Some _ => raise (HTTPException 400 "User already exists")
  | None => insert_user payload_email phash now ;; ret true
  end.

(** [POST /auth/login]; returns the access token and the token type. *)
Definition login (lib : auth_lib) (username password : string)
  : M (string * string) :=
  usr <- get_user_by_email username ;;
  match usr with
  | None => raise (HTTPException 401 "Invalid credentials")
  | Some u =>
      if verify_password lib password (password_hash u)
      then ret (access_token_for lib (uid u), "bearer")
      else raise (HTTPException 401 "Invalid credentials")
  end.

(** [s.split(" ", 1)[1]]: what follows the first space.  Python raises
    IndexError when there is no space; the one caller has checked that the
    string starts with [Bearer ] and a space. *)
Fixpoint after_first_space (s : string) : string :=
  match s with
  | EmptyString => EmptyString
  | String c rest =>
      if Ascii.eqb c Ascii.Space then rest else after_first_space rest
  end.

(** [get_current_user]; [authorization] is the Authorization header of the
    request, [None] when the request has none. *)
Definition get_current_user (lib : auth_lib) (authorization : option string)
  : M user :=
  if truthy_str authorization
  then
    let header := match authorization with
                  | Some h => h
                  | None => EmptyString
                  end in
    if negb (prefix "Bearer " header)
    then raise (HTTPException 401
                  "Invalid auth header (expected 'Bearer <token>')")
    else
      match token_subject lib (after_first_space header) with
      | Raised e => raise e
      | Returned sub =>
          usr <- get_user_by_id sub ;;
          match usr with
          | None => raise (HTTPException 401 "User from token not found")
          | Some u => ret u
          end
      end
  else
    fallback <- get_user_by_id 1 ;;
    match fallback with
    | Some u => ret u
    | None => raise (HTTPException 401 "Authorization required.")
    end.


(** A toy instance of the library: a password verifies against itself,
    and the only tokens are t1 for user 1 and t2 for everybody else, read
    back as user 2. *)
Definition sample_lib : auth_lib :=
  mk_auth_lib (fun p h => (p =? h)%string)
    (fun i => if i =? 1 then "t1" else "t2")
    (fun t => if (t =? "t1")%string then Returned 1
              else if (t =? "t2")%string then Returned 2
              else Raised (HTTPException 401 "Invalid token")).

(** * Properties *)

(** ** Rows and tables *)

Lemma world_eta (w : world) :
  mk_world (reminders w) (users w) (jobs w) (log w) = w.
Proof. destruct w; reflexivity. Qed.

Lemma select_by_id_some rid t r :
  select_by_id rid t = Some r -> In r t /\ id r = rid.
Proof.
  unfold select_by_id; intros H.
  apply find_some in H; destruct H as [Hin Heq].
  apply String.eqb_eq in Heq; auto.
Qed.

Lemma select_by_id_none rid t r :
  select_by_id rid t = None -> In r t -> id r <> rid.
Proof.
  unfold select_by_id; intros H Hin Heq.
  apply (find_none _ _ H) in Hin.
  apply String.eqb_neq in Hin; auto.
Qed.

Lemma update_where_id_length rid f t :
  length (update_where_id rid f t) = length t.
Proof. apply length_map. Qed.

Lemma update_where_id_nth rid f t n :
  nth_error (update_where_id rid f t) n =
  option_map (fun r => if (id r =? rid)%string then f r else r)
    (nth_error t n).
Proof. unfold update_where_id; apply nth_error_map. Qed.

Lemma update_where_id_in rid f t r' :
  In r' (update_where_id rid f t) ->
  exists r, In r t /\ r' = (if (id r =? rid)%string then f r else r).
Proof.
  unfold update_where_id; rewrite in_map_iff.
  intros (r & Hr & Hin); exists r; auto.
Qed.

(** Looking a row up after an UPDATE that keeps ids. *)
Lemma select_update_where_id rid rid' f t :
  (forall r, id (f r) = id r) ->
  select_by_id rid' (update_where_id rid f t) =
  option_map (fun r => if (id r =? rid)%string then f r else r)
    (select_by_id rid' t).
Proof.
  intros Hid; unfold select_by_id, update_where_id.
  induction t as [|a t IH]; simpl; [reflexivity|].
  assert (Ha : id (if (id a =? rid)%string then f a else a) = id a)
    by (destruct (id a =? rid)%string; auto).
  rewrite Ha.
  destruct (id a =? rid')%string; [reflexivity | exact IH].
Qed.

Lemma set_status_id st r : id (set_status st r) = id r.
Proof. reflexivity. Qed.

Lemma set_when_scheduled_id ts r : id (set_when_scheduled ts r) = id r.
Proof. reflexivity. Qed.

Lemma set_snooze_id ts r : id (set_snooze ts r) = id r.
Proof. reflexivity. Qed.

(** ** The job store *)

Lemma has_job_false_drop jid js : has_job jid js = false -> drop_job jid js = js.
Proof.
  unfold has_job, drop_job; induction js as [|j js IH]; simpl; [reflexivity|].
  intros H; apply orb_false_iff in H; destruct H as [Hj Hjs].
  rewrite Hj; simpl; f_equal; auto.
Qed.

Lemma has_job_drop jid js : has_job jid (drop_job jid js) = false.
Proof.
  unfold has_job, drop_job; induction js as [|j js IH]; simpl; [reflexivity|].
  destruct (job_id j =? jid)%string eqn:E; simpl; [exact IH|].
  rewrite E; exact IH.
Qed.

Lemma has_job_pending jid js : has_job jid js = false <-> pending jid js = 0%nat.
Proof.
  unfold has_job, pending; induction js as [|j js IH]; simpl; [tauto|].
  destruct (job_id j =? jid)%string; simpl; [split; discriminate | exact IH].
Qed.

Lemma pending_app jid js ks :
  pending jid (js ++ ks) = (pending jid js + pending jid ks)%nat.
Proof. unfold pending; rewrite filter_app, length_app; reflexivity. Qed.

Lemma pending_drop_same jid js : pending jid (drop_job jid js) = 0%nat.
Proof. apply has_job_pending, has_job_drop. Qed.

Lemma pending_drop_other jid jid' js :
  jid' <> jid -> pending jid' (drop_job jid js) = pending jid' js.
Proof.
  intros Hne; unfold pending, drop_job.
  induction js as [|j js IH]; simpl; [reflexivity|].
  destruct (job_id j =? jid)%string eqn:E; simpl.
  - apply String.eqb_eq in E.
    destruct (job_id j =? jid')%string eqn:E'; [|exact IH].
    apply String.eqb_eq in E'; congruence.
  - destruct (job_id j =? jid')%string; simpl; auto.
Qed.

Lemma in_drop_job jid js j :
  In j (drop_job jid js) <-> In j js /\ job_id j <> jid.
Proof.
  unfold drop_job; rewrite filter_In, negb_true_iff, String.eqb_neq; tauto.
Qed.

Lemma job_name_inj a b : job_name a = job_name b -> a = b.
Proof. unfold job_name; simpl; intros H; congruence. Qed.

(** The guarded removal used by the source never raises. *)
Lemma try_remove_job jid w :
  try_except (remove_job jid) (fun _ => ret tt) w =
  (mk_world (reminders w) (users w) (drop_job jid (jobs w)) (log w),
   Returned tt).
Proof.
  unfold try_except, remove_job, ret.
  destruct (has_job jid (jobs w)) eqn:E; [reflexivity|].
  rewrite (has_job_false_drop _ _ E), world_eta; reflexivity.
Qed.

(** [schedule_job] in closed form. *)
Lemma schedule_job_eq rid dt w :
  schedule_job rid dt w =
  (mk_world (reminders w) (users w)
     (drop_job (job_name rid) (jobs w) ++ [mk_job (job_name rid) dt rid])
     (log w ++ [Print (Scheduled (job_name rid) dt)]),
   Returned tt).
Proof.
  unfold schedule_job, bind; rewrite try_remove_job.
  unfold add_job; simpl; rewrite has_job_drop; reflexivity.
Qed.

(** ** The notifier in closed form *)

Lemma send_email_eq env m w :
  exists b,
    send_email env m w =
    (mk_world (reminders w) (users w) (jobs w) (log w ++ send_email_log env m),
     Returned b).
Proof.
  unfold send_email, send_email_log.
  destruct (negb (truthy_str (SMTP_HOST env))).
  - exists false; reflexivity.
  - unfold try_except, bind, smtp_session.
    destruct (smtp_delivers env m).
    + exists true; reflexivity.
    + exists false; unfold print, emit, ret; simpl.
      rewrite <- app_assoc; reflexivity.
Qed.

(** The re-arming step of the notifier, from any world. *)
Lemma rearm_step_eq rem w :
  match recurring rem with
  | Some interval =>
      let next_ts := when_ts rem + interval in
      execute (UPDATE_when_scheduled next_ts (id rem)) ;;
      when_dt <- utcfromtimestamp next_ts ;;
      schedule_job (id rem) when_dt
  | None => ret tt
  end w =
  (mk_world
     match recurring rem with
     | Some i =>
         update_where_id (id rem) (set_when_scheduled (when_ts rem + i))
           (reminders w)
     | None => reminders w
     end (users w)
     match recurring rem with
     | Some i =>
         if in_datetime_range (when_ts rem + i)
         then drop_job (job_name (id rem)) (jobs w)
              ++ [mk_job (job_name (id rem))
                    (mk_datetime (when_ts rem + i) None) (id rem)]
         else jobs w
     | None => jobs w
     end
     (log w ++ match recurring rem with
               | Some i =>
                   Committed (UPDATE_when_scheduled (when_ts rem + i) (id rem))
                   :: (if in_datetime_range (when_ts rem + i)
                       then [Print (Scheduled (job_name (id rem))
                                      (mk_datetime (when_ts rem + i) None))]
                       else [])
               | None => []
               end),
   match recurring rem with
   | Some i =>
       if in_datetime_range (when_ts rem + i)
       then Returned tt
       else Raised ValueError
   | None => Returned tt
   end).
Proof.
  destruct (recurring rem) as [i|].
  - cbv zeta; unfold bind at 1, execute; simpl run_statement; cbv iota beta.
    unfold bind, utcfromtimestamp.
    destruct (in_datetime_range (when_ts rem + i)).
    + unfold ret; rewrite schedule_job_eq; simpl.
      rewrite <- app_assoc; reflexivity.
    + reflexivity.
  - unfold ret; rewrite app_nil_r, world_eta; reflexivity.
Qed.

Lemma notifier_notify_found env rid w rem :
  select_by_id rid (reminders w) = Some rem ->
  notifier_notify env rid w =
  (mk_world (rows_after_fire rem (users w) (reminders w)) (users w)
     (jobs_after_fire rem (users w) (jobs w))
     (log w ++ fire_log env rem (users w)),
   fire_outcome rem (users w)).
Proof.
  intros Hsel.
  destruct (select_by_id_some _ _ _ Hsel) as [_ Hid]; subst rid.
  unfold notifier_notify, bind at 1, load_reminder; rewrite Hsel.
  unfold update_reminder_status, bind at 1, execute; simpl run_statement.
  cbv iota beta.
  unfold bind at 1, get_user_by_id; simpl users.
  unfold rows_after_fire, jobs_after_fire, fire_log, delivery_log, rearm_log,
    fire_outcome, rearmed, composes.
  set (w1 := mk_world _ _ _ _).
  destruct (find (fun x => uid x =? user_id rem) (users w)) as [u|].
  - unfold bind at 1, bind at 1, bind at 1, utcfromtimestamp.
    destruct (in_datetime_range (when_ts rem)).
    + unfold ret at 1.
      destruct (send_email_eq env (notice rem u) w1) as [b Hb].
      unfold notice in Hb; rewrite Hb; unfold ret at 1.
      rewrite rearm_step_eq; subst w1; simpl.
      rewrite <- !app_assoc; reflexivity.
    + subst w1; simpl; reflexivity.
  - unfold bind at 1, ret at 1.
    rewrite rearm_step_eq; subst w1; simpl.
    rewrite <- !app_assoc; reflexivity.
Qed.

Lemma notifier_notify_missing env rid w :
  select_by_id rid (reminders w) = None ->
  notifier_notify env rid w =
  (mk_world (reminders w) (users w) (jobs w)
     (log w ++ [Print (Reminder_not_found rid)]),
   Returned tt).
Proof.
  intros Hsel; unfold notifier_notify, bind, load_reminder; rewrite Hsel.
  reflexivity.
Qed.

(** ** The endpoints in closed form *)

Lemma not_owned_false rem u rid t :
  select_by_id rid t = Some rem -> user_id rem = uid u ->
  not_owned (select_by_id rid t) u = false.
Proof.
  intros -> Hown; simpl; rewrite Hown, Z.eqb_refl; reflexivity.
Qed.

Lemma not_owned_other rem u rid t :
  select_by_id rid t = Some rem -> user_id rem <> uid u ->
  not_owned (select_by_id rid t) u = true.
Proof.
  intros -> Hown; simpl; apply Z.eqb_neq in Hown; rewrite Hown; reflexivity.
Qed.

Lemma snooze_reminder_owned now rid minutes u w :
  not_owned (select_by_id rid (reminders w)) u = false ->
  in_datetime_range (now + minutes * 60) = true ->
  snooze_reminder now rid minutes u w =
  (mk_world
     (update_where_id rid (set_snooze (now + minutes * 60)) (reminders w))
     (users w)
     (drop_job (job_name rid) (jobs w)
      ++ [mk_job (job_name rid) (mk_datetime (now + minutes * 60) None) rid])
     (log w ++ [Committed (UPDATE_snooze (now + minutes * 60) rid);
                Print (Scheduled (job_name rid)
                         (mk_datetime (now + minutes * 60) None))]),
   Returned (rid, mk_datetime (now + minutes * 60) None)).
Proof.
  intros Hown Hin; unfold snooze_reminder, bind at 1, load_reminder.
  rewrite Hown; unfold bind at 1, execute; simpl run_statement.
  cbv iota beta zeta; unfold bind, utcfromtimestamp; rewrite Hin.
  unfold ret at 1; rewrite schedule_job_eq; simpl.
  rewrite <- app_assoc; reflexivity.
Qed.

(** The commit of the snooze comes before the date is built: when the new
    time is no date, the row is rewritten and the timers are not. *)
Lemma snooze_reminder_out_of_range now rid minutes u w :
  not_owned (select_by_id rid (reminders w)) u = false ->
  in_datetime_range (now + minutes * 60) = false ->
  snooze_reminder now rid minutes u w =
  (mk_world
     (update_where_id rid (set_snooze (now + minutes * 60)) (reminders w))
     (users w) (jobs w)
     (log w ++ [Committed (UPDATE_snooze (now + minutes * 60) rid)]),
   Raised ValueError).
Proof.
  intros Hown Hout; unfold snooze_reminder, bind at 1, load_reminder.
  rewrite Hown; unfold bind at 1, execute; simpl run_statement.
  cbv iota beta zeta; unfold bind, utcfromtimestamp; rewrite Hout.
  reflexivity.
Qed.

Lemma snooze_reminder_rejected now rid minutes u w :
  not_owned (select_by_id rid (reminders w)) u = true ->
  snooze_reminder now rid minutes u w =
  (w, Raised (HTTPException 404 "Not found")).
Proof.
  intros Hown; unfold snooze_reminder, bind, load_reminder.
  rewrite Hown; reflexivity.
Qed.

Lemma cancel_reminder_owned rid u w :
  not_owned (select_by_id rid (reminders w)) u = false ->
  cancel_reminder rid u w =
  (mk_world (update_where_id rid (set_status "cancelled") (reminders w))
     (users w) (drop_job (job_name rid) (jobs w))
     (log w ++ [Committed (UPDATE_status "cancelled" rid)]),
   Returned (rid, "cancelled")).
Proof.
  intros Hown; unfold cancel_reminder, bind at 1, load_reminder.
  rewrite Hown; unfold update_reminder_status, bind at 1, execute.
  simpl run_statement; cbv iota beta; unfold bind.
  rewrite try_remove_job; reflexivity.
Qed.

Lemma cancel_reminder_rejected rid u w :
  not_owned (select_by_id rid (reminders w)) u = true ->
  cancel_reminder rid u w =
  (w, Raised (HTTPException 404 "Reminder not found")).
Proof.
  intros Hown; unfold cancel_reminder, bind, load_reminder.
  rewrite Hown; reflexivity.
Qed.

Lemma delete_reminder_owned rid u w :
  not_owned (select_by_id rid (reminders w)) u = false ->
  delete_reminder rid u w =
  (mk_world (filter (fun r => negb (id r =? rid)%string) (reminders w))
     (users w) (drop_job (job_name rid) (jobs w))
     (log w ++ [Committed (DELETE_reminder rid)]),
   Returned (rid, "deleted")).
Proof.
  intros Hown; unfold delete_reminder, bind at 1, load_reminder.
  rewrite Hown; unfold bind at 1, execute.
  simpl run_statement; cbv iota beta; unfold bind.
  rewrite try_remove_job; reflexivity.
Qed.

Lemma delete_reminder_rejected rid u w :
  not_owned (select_by_id rid (reminders w)) u = true ->
  delete_reminder rid u w =
  (w, Raised (HTTPException 404 "Reminder not found")).
Proof.
  intros Hown; unfold delete_reminder, bind, load_reminder.
  rewrite Hown; reflexivity.
Qed.

Lemma create_reminder_fresh tz now rid p u w :
  select_by_id rid (reminders w) = None ->
  create_reminder tz now rid p u w =
  (mk_world (reminders w ++ [new_row tz now rid p u]) (users w)
     (drop_job (job_name rid) (jobs w) ++ [mk_job (job_name rid) (p_when p) rid])
     (log w ++ [Committed (INSERT_reminder (new_row tz now rid p u));
                Print (Scheduled (job_name rid) (p_when p))]),
   Returned (rid, p_when p)).
Proof.
  intros Hsel; unfold create_reminder, save_reminder_db, bind at 1, execute.
  simpl run_statement; rewrite Hsel; unfold bind.
  rewrite schedule_job_eq; simpl; rewrite <- app_assoc; reflexivity.
Qed.

Lemma create_reminder_clash tz now rid p u w r :
  select_by_id rid (reminders w) = Some r ->
  create_reminder tz now rid p u w = (w, Raised IntegrityError).
Proof.
  intros Hsel; unfold create_reminder, save_reminder_db, bind at 1, execute.
  simpl run_statement; rewrite Hsel; reflexivity.
Qed.

Lemma run_job_eq env j w :
  run_job env j w =
  (fst (notifier_notify env (args j)
          (mk_world (reminders w) (users w) (drop_job (job_id j) (jobs w))
             (log w))),
   Returned tt).
Proof.
  unfold run_job, bind; rewrite try_remove_job.
  set (w1 := mk_world _ _ _ _).
  unfold try_except.
  destruct (select_by_id (args j) (reminders w1)) as [rem|] eqn:E.
  - rewrite (notifier_notify_found env _ _ _ E).
    destruct (fire_outcome rem (users w1)) as [[]|e]; reflexivity.
  - rewrite (notifier_notify_missing env _ _ E); reflexivity.
Qed.

(** ** Writing the status (C10) *)

(** C10.  [update_reminder_status rid st] returns normally and rewrites the
    table row by row: the row at every position keeps all its columns but
    [status]; a row with another id is untouched, a row with id [rid] gets
    status [st].  The table keeps its length, and the users and the timers
    are untouched. *)
Theorem update_reminder_status_writes_status_only rid st w n r :
  nth_error (reminders w) n = Some r ->
  snd (update_reminder_status rid st w) = Returned tt /\
  length (reminders (fst (update_reminder_status rid st w)))
    = length (reminders w) /\
  users (fst (update_reminder_status rid st w)) = users w /\
  jobs (fst (update_reminder_status rid st w)) = jobs w /\
  exists r',
    nth_error (reminders (fst (update_reminder_status rid st w))) n = Some r' /\
    same_but_status r r' /\
    (id r = rid -> status r' = st) /\
    (id r <> rid -> r' = r).
Proof.
  intros Hn; unfold update_reminder_status, execute; simpl.
  repeat split; try apply update_where_id_length.
  rewrite update_where_id_nth, Hn; simpl.
  destruct (id r =? rid)%string eqn:E.
  - exists (set_status st r); repeat split; try reflexivity.
    apply String.eqb_eq in E; congruence.
  - exists r; repeat split; try reflexivity.
    apply String.eqb_neq in E; congruence.
Qed.

Lemma update_reminder_status_writes_status_only_witness :
  nth_error (reminders with_standup) 0 = Some (new_row 0 1000 "r1" standup alice) /\
  exists r',
    nth_error
      (reminders (fst (update_reminder_status "r1" "fired" with_standup))) 0
      = Some r' /\
    same_but_status (new_row 0 1000 "r1" standup alice) r' /\
    status r' = "fired".
Proof.
  assert (H0 : nth_error (reminders with_standup) 0
               = Some (new_row 0 1000 "r1" standup alice)) by reflexivity.
  split; [exact H0|].
  destruct (update_reminder_status_writes_status_only "r1" "fired"
              with_standup 0 _ H0) as (_ & _ & _ & _ & r' & Hn & Hsame & Hst & _).
  exists r'; split; [exact Hn|]; split; [exact Hsame|].
  apply Hst; reflexivity.
Defined.

(** ** Firing a reminder that is gone (C4) *)

Lemma absent_select rid t : absent rid t <-> select_by_id rid t = None.
Proof.
  split.
  - unfold absent, select_by_id; induction t as [|a t IH]; simpl; intros H.
    + reflexivity.
    + destruct (id a =? rid)%string eqn:E.
      * apply String.eqb_eq in E; exfalso; apply (H a); auto.
      * apply IH; intros r Hr; apply H; auto.
  - intros H r Hr; exact (select_by_id_none _ _ _ H Hr).
Qed.

(** C4.  When no row has the id, [notifier_notify] returns normally; the
    table of reminders, the users and the pending timers are what they were,
    and the only effect is the printed line: no statement is committed and
    no SMTP session is opened.  The same holds for the whole expiry of a
    timer whose reminder is gone, apart from that timer leaving the store. *)
Theorem notifier_notify_absent_is_silent env rid w :
  absent rid (reminders w) ->
  notifier_notify env rid w =
    (mk_world (reminders w) (users w) (jobs w)
       (log w ++ [Print (Reminder_not_found rid)]),
     Returned tt) /\
  forall j, args j = rid ->
    run_job env j w =
      (mk_world (reminders w) (users w) (drop_job (job_id j) (jobs w))
         (log w ++ [Print (Reminder_not_found rid)]),
       Returned tt).
Proof.
  intros Habs; apply absent_select in Habs; split.
  - apply notifier_notify_missing; exact Habs.
  - intros j Hj; rewrite run_job_eq, Hj.
    rewrite notifier_notify_missing by exact Habs; reflexivity.
Qed.

Lemma notifier_notify_absent_is_silent_witness :
  absent "r9" (reminders with_standup) /\
  notifier_notify failing_smtp "r9" with_standup =
    (mk_world (reminders with_standup) (users with_standup)
       (jobs with_standup)
       (log with_standup ++ [Print (Reminder_not_found "r9")]),
     Returned tt).
Proof.
  assert (Habs : absent "r9" (reminders with_standup)).
  { intros r [<-|[]]; vm_compute; discriminate. }
  split; [exact Habs|].
  exact (proj1 (notifier_notify_absent_is_silent failing_smtp "r9"
                  with_standup Habs)).
Defined.

(** ** Requests and their effects *)

Lemma perform_effect q w :
  enabled q w ->
  exists evs,
    effect w (reminders (fst (perform q w))) (jobs (fst (perform q w))) evs /\
    log (fst (perform q w)) = log w ++ evs.
Proof.
  intros Hen; destruct q as [tz now rid p u|now rid m u|rid u|rid u|env j|us];
    unfold perform.
  - destruct (select_by_id rid (reminders w)) as [r|] eqn:E; unfold bind.
    + rewrite (create_reminder_clash tz now rid p u w r E); simpl.
      exists []; rewrite app_nil_r; split; [constructor|]; reflexivity.
    + rewrite (create_reminder_fresh tz now rid p u w E); simpl.
      eexists; split; [apply effect_create; exact E | reflexivity].
  - destruct (not_owned (select_by_id rid (reminders w)) u) eqn:E; unfold bind.
    + rewrite (snooze_reminder_rejected now rid m u w E); simpl.
      exists []; rewrite app_nil_r; split; [constructor|]; reflexivity.
    + destruct (in_datetime_range (now + m * 60)) eqn:R.
      * rewrite (snooze_reminder_owned now rid m u w E R); simpl.
        eexists; split; [apply effect_snooze | reflexivity].
      * rewrite (snooze_reminder_out_of_range now rid m u w E R); simpl.
        eexists; split; [apply effect_snooze_raised | reflexivity].
  - destruct (not_owned (select_by_id rid (reminders w)) u) eqn:E; unfold bind.
    + rewrite (cancel_reminder_rejected rid u w E); simpl.
      exists []; rewrite app_nil_r; split; [constructor|]; reflexivity.
    + rewrite (cancel_reminder_owned rid u w E); simpl.
      eexists; split; [apply effect_cancel | reflexivity].
  - destruct (not_owned (select_by_id rid (reminders w)) u) eqn:E; unfold bind.
    + rewrite (delete_reminder_rejected rid u w E); simpl.
      exists []; rewrite app_nil_r; split; [constructor|]; reflexivity.
    + rewrite (delete_reminder_owned rid u w E); simpl.
      eexists; split; [apply effect_delete | reflexivity].
  - simpl in Hen; rewrite run_job_eq; simpl fst.
    destruct (select_by_id (args j) (reminders w)) as [rem|] eqn:E.
    + rewrite (notifier_notify_found env _ _ rem) by exact E; simpl.
      eexists; split; [apply effect_expire; eassumption | reflexivity].
    + rewrite notifier_notify_missing by exact E; simpl.
      eexists; split; [apply effect_expire_missing; assumption | reflexivity].
  - simpl; exists []; rewrite app_nil_r; split; [constructor|]; reflexivity.
Qed.

(** ** The invariant of the reachable worlds *)

Lemma update_where_id_cases rid f t r' :
  In r' (update_where_id rid f t) ->
  exists r, In r t /\ ((id r = rid /\ r' = f r) \/ (id r <> rid /\ r' = r)).
Proof.
  intros H; apply update_where_id_in in H; destruct H as (r & Hin & Hr).
  exists r; split; [exact Hin|].
  destruct (id r =? rid)%string eqn:E.
  - apply String.eqb_eq in E; auto.
  - apply String.eqb_neq in E; auto.
Qed.

Lemma rows_after_fire_cases rem us t r' :
  In r' (rows_after_fire rem us t) ->
  exists r, In r t /\
    ((id r <> id rem /\ r' = r) \/
     (id r = id rem /\ id r' = id rem /\
      status r' = match rearmed rem us with
                  | Some _ => "scheduled"
                  | None => "fired"
                  end)).
Proof.
  unfold rows_after_fire; destruct (rearmed rem us) as [i|]; intros H.
  - apply update_where_id_cases in H; destruct H as (r1 & H1 & Hr').
    apply update_where_id_cases in H1; destruct H1 as (r & Hin & Hr1).
    exists r; split; [exact Hin|].
    destruct Hr1 as [[Hid ->]|[Hid ->]]; destruct Hr' as [[Hid' ->]|[Hid' ->]];
      simpl in *; auto; try contradiction.
  - apply update_where_id_cases in H; destruct H as (r & Hin & Hr').
    exists r; split; [exact Hin|].
    destruct Hr' as [[Hid ->]|[Hid ->]]; simpl; auto.
Qed.

Lemma in_arm rid dt js j :
  In j (arm rid dt js) <->
  (In j js /\ job_id j <> job_name rid) \/ j = mk_job (job_name rid) dt rid.
Proof.
  unfold arm; rewrite in_app_iff, in_drop_job; simpl.
  intuition auto.
Qed.

Lemma pending_drop_le jid x js :
  (pending jid (drop_job x js) <= pending jid js)%nat.
Proof.
  unfold pending, drop_job; induction js as [|j js IH]; simpl; [lia|].
  destruct (job_id j =? x)%string; simpl;
    destruct (job_id j =? jid)%string; simpl; lia.
Qed.

Lemma pending_arm_same rid dt js : pending (job_name rid) (arm rid dt js) = 1%nat.
Proof.
  unfold arm; rewrite pending_app, pending_drop_same.
  unfold pending; cbn [filter job_id]; rewrite String.eqb_refl; reflexivity.
Qed.

Lemma pending_arm_other rid dt js jid :
  jid <> job_name rid -> pending jid (arm rid dt js) = pending jid js.
Proof.
  intros Hne; unfold arm; rewrite pending_app, pending_drop_other by exact Hne.
  unfold pending at 2; cbn [filter job_id].
  destruct (job_name rid =? jid)%string eqn:E; [|cbn [length]; lia].
  apply String.eqb_eq in E; congruence.
Qed.

Lemma pending_arm_le rid dt js jid :
  (pending jid js <= 1)%nat -> (pending jid (arm rid dt js) <= 1)%nat.
Proof.
  intros H; destruct (string_dec jid (job_name rid)) as [->|Hne].
  - rewrite pending_arm_same; lia.
  - rewrite pending_arm_other by exact Hne; exact H.
Qed.

Lemma map_id_update_where_id rid f t :
  (forall r, id (f r) = id r) -> map id (update_where_id rid f t) = map id t.
Proof.
  intros Hid; unfold update_where_id; rewrite map_map.
  apply map_ext; intros r; destruct (id r =? rid)%string; auto.
Qed.

Lemma map_id_rows_after_fire rem us t :
  map id (rows_after_fire rem us t) = map id t.
Proof.
  unfold rows_after_fire; destruct (rearmed rem us);
    rewrite !map_id_update_where_id by reflexivity; reflexivity.
Qed.

Lemma NoDup_ids_filter (p : reminder -> bool) t :
  NoDup (map id t) -> NoDup (map id (filter p t)).
Proof.
  induction t as [|a t IH]; simpl; intros H; [constructor|].
  inversion H as [|x l Hnot Hrest]; subst.
  destruct (p a); simpl; [|auto].
  constructor; [|auto].
  intros Hin; apply Hnot.
  apply in_map_iff in Hin; destruct Hin as (r & Hr & Hin).
  apply filter_In in Hin; destruct Hin as [Hin _].
  apply in_map_iff; exists r; auto.
Qed.

Lemma NoDup_ids_insert t r :
  select_by_id (id r) t = None -> NoDup (map id t) ->
  NoDup (map id (t ++ [r])).
Proof.
  intros Hfresh; induction t as [|a t IH]; simpl; intros H.
  - constructor; [intros [] | constructor].
  - inversion H as [|x l Hnot Hrest]; subst.
    unfold select_by_id in Hfresh; simpl in Hfresh.
    destruct (id a =? id r)%string eqn:E; [discriminate|].
    constructor; [|apply IH; assumption].
    rewrite map_app, in_app_iff; simpl; intros [Hin|[Heq|[]]]; [auto|].
    apply String.eqb_neq in E; congruence.
Qed.

Lemma consistent_initial : consistent initial.
Proof.
  constructor; simpl; try contradiction; try constructor;
    intros; unfold pending; simpl; lia.
Qed.

Lemma effect_consistent w t' js' evs us' l' :
  consistent w -> effect w t' js' evs -> consistent (mk_world t' us' js' l').
Proof.
  intros [Hval Hname Hsched Hone Huniq] Heff.
  destruct Heff as [evs _|tz now rid p u Hfresh|ts rid|ts rid|rid|rid|j Hj Hsel
                   |env j rem Hj Hsel].
  - constructor; simpl; auto.
  - (* create *)
    constructor; simpl.
    + intros r Hr; apply in_app_iff in Hr; destruct Hr as [Hr|[<-|[]]]; auto.
      left; reflexivity.
    + intros j Hj; apply in_arm in Hj; destruct Hj as [[Hj _]| ->]; auto.
    + intros j r Hj Hr Hid.
      apply in_app_iff in Hr; destruct Hr as [Hr|[<-|[]]]; [|reflexivity].
      apply in_arm in Hj; destruct Hj as [[Hj _]| ->]; [eauto|].
      simpl in Hid; exfalso.
      exact (select_by_id_none _ _ _ Hfresh Hr Hid).
    + intros jid; apply pending_arm_le, Hone.
    + apply NoDup_ids_insert; assumption.
  - (* snooze *)
    constructor; simpl.
    + intros r' Hr'; apply update_where_id_cases in Hr'.
      destruct Hr' as (r & Hr & [[_ ->]|[_ ->]]); auto.
      left; reflexivity.
    + intros j Hj; apply in_arm in Hj; destruct Hj as [[Hj _]| ->]; auto.
    + intros j r' Hj Hr' Hid.
      apply update_where_id_cases in Hr'.
      destruct Hr' as (r & Hr & [[_ ->]|[Hne ->]]); [reflexivity|].
      apply in_arm in Hj; destruct Hj as [[Hj _]| ->]; [eauto|].
      simpl in Hid; contradiction.
    + intros jid; apply pending_arm_le, Hone.
    + rewrite map_id_update_where_id by reflexivity; assumption.
  - (* snooze, the date refused *)
    constructor; simpl; auto.
    + intros r' Hr'; apply update_where_id_cases in Hr'.
      destruct Hr' as (r & Hr & [[_ ->]|[_ ->]]); auto.
      left; reflexivity.
    + intros j r' Hj Hr' Hid.
      apply update_where_id_cases in Hr'.
      destruct Hr' as (r & Hr & [[_ ->]|[Hne ->]]); [reflexivity | eauto].
    + rewrite map_id_update_where_id by reflexivity; assumption.
  - (* cancel *)
    constructor; simpl.
    + intros r' Hr'; apply update_where_id_cases in Hr'.
      destruct Hr' as (r & Hr & [[_ ->]|[_ ->]]); auto.
      right; right; reflexivity.
    + intros j Hj; apply in_drop_job in Hj; destruct Hj; auto.
    + intros j r' Hj Hr' Hid.
      apply in_drop_job in Hj; destruct Hj as [Hj Hjid].
      apply update_where_id_cases in Hr'.
      destruct Hr' as (r & Hr & [[Heq ->]|[Hne ->]]); [|eauto].
      simpl in Hid; exfalso; apply Hjid.
      rewrite (Hname j Hj); congruence.
    + intros jid; etransitivity; [apply pending_drop_le | apply Hone].
    + rewrite map_id_update_where_id by reflexivity; assumption.
  - (* delete *)
    constructor; simpl.
    + intros r Hr; apply filter_In in Hr; destruct Hr; auto.
    + intros j Hj; apply in_drop_job in Hj; destruct Hj; auto.
    + intros j r Hj Hr Hid.
      apply in_drop_job in Hj; destruct Hj as [Hj _].
      apply filter_In in Hr; destruct Hr as [Hr _]; eauto.
    + intros jid; etransitivity; [apply pending_drop_le | apply Hone].
    + apply NoDup_ids_filter; assumption.
  - (* expiry, reminder gone *)
    constructor; simpl; auto.
    + intros k Hk; apply in_drop_job in Hk; destruct Hk; auto.
    + intros k r Hk Hr Hid.
      apply in_drop_job in Hk; destruct Hk as [Hk _]; eauto.
    + intros jid; etransitivity; [apply pending_drop_le | apply Hone].
  - (* expiry, reminder found *)
    destruct (select_by_id_some _ _ _ Hsel) as [Hrem Hidrem].
    assert (Hjname : job_id j = job_name (id rem))
      by (rewrite (Hname j Hj); congruence).
    assert (Hjobs : forall k, In k (jobs_after_fire rem (users w)
                                      (drop_job (job_id j) (jobs w))) ->
              (In k (jobs w) /\ job_id k <> job_name (id rem)) \/
              (args k = id rem /\ job_id k = job_name (id rem) /\
               rearmed rem (users w) <> None)).
    { intros k Hk; unfold jobs_after_fire in Hk.
      assert (Hold : In k (drop_job (job_id j) (jobs w)) ->
                     In k (jobs w) /\ job_id k <> job_name (id rem)).
      { intros Hk'; apply in_drop_job in Hk'; destruct Hk' as [Hk' Hne].
        split; [exact Hk' | congruence]. }
      destruct (rearmed rem (users w)) as [i|]; [|auto].
      destruct (in_datetime_range (when_ts rem + i)); [|auto].
      apply (in_arm (id rem)) in Hk; destruct Hk as [[Hk Hne]| ->].
      - apply in_drop_job in Hk; destruct Hk; auto.
      - right; simpl; repeat split; discriminate. }
    constructor; simpl.
    + intros r' Hr'; apply rows_after_fire_cases in Hr'.
      destruct Hr' as (r & Hr & [[_ ->]|(_ & _ & Hst)]); auto.
      rewrite Hst; destruct (rearmed rem (users w)); [left | right; left];
        reflexivity.
    + intros k Hk; destruct (Hjobs k Hk) as [[Hk' _]|(Ha & Hi & _)]; auto.
      congruence.
    + intros k r' Hk Hr' Hid.
      apply rows_after_fire_cases in Hr'.
      destruct Hr' as (r & Hr & [[Hne ->]|(Heq & Heq' & Hst)]).
      * destruct (Hjobs k Hk) as [[Hk' _]|(Ha & _ & _)]; [eauto|].
        congruence.
      * destruct (Hjobs k Hk) as [[Hk' Hkne]|(_ & _ & Hrec)].
        -- exfalso; apply Hkne; rewrite (Hname k Hk'); congruence.
        -- rewrite Hst; destruct (rearmed rem (users w)); congruence.
    + intros jid; unfold jobs_after_fire.
      assert (Hle : (pending jid (drop_job (job_id j) (jobs w)) <= 1)%nat)
        by (etransitivity; [apply pending_drop_le | apply Hone]).
      destruct (rearmed rem (users w)); [|exact Hle].
      destruct (in_datetime_range (when_ts rem + z)); [|exact Hle].
      apply (pending_arm_le (id rem)); exact Hle.
    + rewrite map_id_rows_after_fire; assumption.
Qed.

Lemma reachable_consistent w : reachable w -> consistent w.
Proof.
  induction 1 as [|q w Hreach IH Hen].
  - apply consistent_initial.
  - destruct (perform_effect q w Hen) as (evs & Heff & _).
    rewrite <- (world_eta (fst (perform q w))).
    eapply effect_consistent; eassumption.
Qed.

(** Reachability of the sample worlds. *)

Lemma reachable_registered : reachable registered.
Proof. apply reachable_step; [apply reachable_initial | exact I]. Qed.

Lemma reachable_with_standup : reachable with_standup.
Proof. apply reachable_step; [apply reachable_registered | exact I]. Qed.

Lemma reachable_standup_fired : reachable standup_fired.
Proof.
  apply reachable_step; [apply reachable_with_standup|].
  vm_compute; auto.
Qed.

Lemma reachable_two_owners : reachable two_owners.
Proof.
  apply reachable_step; [|exact I].
  apply reachable_step; [apply reachable_registered | exact I].
Qed.

Lemma reachable_dentist_fired : reachable dentist_fired.
Proof.
  apply reachable_step.
  - apply reachable_step; [apply reachable_registered | exact I].
  - vm_compute; auto.
Qed.





(** ** One timer per reminder (C6) *)

(** C6.  [schedule_job rid at_time] returns normally.  It drops every
    pending timer of the id and then adds one for [at_time], so that
    afterwards the id has exactly one pending timer, that timer fires at
    [at_time] and calls the notifier on [rid], and the timers of other ids
    are as before.  Scheduling a second time leaves one timer again, for the
    second time.  In every reachable world no id has two pending timers. *)
Theorem schedule_job_leaves_one_timer rid at_time w :
  snd (schedule_job rid at_time w) = Returned tt /\
  jobs (fst (schedule_job rid at_time w))
    = drop_job (job_name rid) (jobs w) ++ [mk_job (job_name rid) at_time rid] /\
  pending (job_name rid) (jobs (fst (schedule_job rid at_time w))) = 1%nat /\
  (forall j, In j (jobs (fst (schedule_job rid at_time w))) ->
             job_id j = job_name rid ->
             j = mk_job (job_name rid) at_time rid) /\
  (forall jid, jid <> job_name rid ->
     pending jid (jobs (fst (schedule_job rid at_time w)))
       = pending jid (jobs w)) /\
  (forall again,
     pending (job_name rid)
       (jobs (fst (schedule_job rid again (fst (schedule_job rid at_time w)))))
       = 1%nat /\
     forall j,
       In j (jobs (fst (schedule_job rid again
                          (fst (schedule_job rid at_time w))))) ->
       job_id j = job_name rid -> run_date j = again) /\
  (forall w0 jid, reachable w0 -> (pending jid (jobs w0) <= 1)%nat).
Proof.
  assert (Hself : forall dt js j,
             In j (arm rid dt js) -> job_id j = job_name rid ->
             j = mk_job (job_name rid) dt rid).
  { intros dt js j Hj Hid; apply in_arm in Hj.
    destruct Hj as [[_ Hne]|Hj]; [contradiction | exact Hj]. }
  rewrite !schedule_job_eq; simpl.
  repeat split.
  - apply pending_arm_same.
  - apply Hself.
  - intros jid Hne; apply (pending_arm_other rid); exact Hne.
  - rewrite schedule_job_eq; simpl; apply pending_arm_same.
  - rewrite schedule_job_eq; simpl; intros j Hj Hid.
    rewrite (Hself _ _ _ Hj Hid); reflexivity.
  - intros w0 jid Hreach; apply (timers_single _ (reachable_consistent _ Hreach)).
Qed.

Lemma schedule_job_leaves_one_timer_witness :
  reachable with_standup /\
  In (mk_job (job_name "r1") (mk_datetime 1060 (Some 0)) "r1")
     (jobs with_standup) /\
  (pending (job_name "r1") (jobs with_standup) <= 1)%nat /\
  mk_job (job_name "r1") (mk_datetime 2000 None) "r1"
    = mk_job (job_name "r1") (mk_datetime 2000 None) "r1" /\
  pending (job_name "r2")
    (jobs (fst (schedule_job "r1" (mk_datetime 2000 None) with_standup)))
    = pending (job_name "r2") (jobs with_standup) /\
  run_date (mk_job (job_name "r1") (mk_datetime 3000 None) "r1")
    = mk_datetime 3000 None.
Proof.
  destruct (schedule_job_leaves_one_timer "r1" (mk_datetime 2000 None)
              with_standup) as (_ & _ & _ & Hthe & Hframe & Htwice & Hinv).
  split; [apply reachable_with_standup|].
  split; [vm_compute; auto|].
  split; [apply Hinv, reachable_with_standup|].
  split; [apply Hthe; [vm_compute; auto | reflexivity]|].
  split; [apply Hframe; vm_compute; discriminate|].
  apply (proj2 (Htwice (mk_datetime 3000 None)));
    [vm_compute; auto | reflexivity].
Defined.

(** ** Recurrence (C1) *)

Lemma in_datetime_range_iff ts :
  in_datetime_range ts = true <-> -62135596800 <= ts <= 253402300799.
Proof.
  unfold in_datetime_range, datetime_min, datetime_max.
  rewrite andb_true_iff, !Z.leb_le; tauto.
Qed.

Lemma out_of_datetime_range_iff ts :
  in_datetime_range ts = false <-> ts < -62135596800 \/ 253402300799 < ts.
Proof.
  unfold in_datetime_range, datetime_min, datetime_max.
  rewrite andb_false_iff, !Z.leb_gt; tauto.
Qed.

Lemma recurring_nonzero rem i :
  repeat_interval rem = Some i -> i <> 0 -> recurring rem = Some i.
Proof.
  intros Hri Hnz; unfold recurring, truthy_int; rewrite Hri.
  destruct (i =? 0) eqn:E; [apply Z.eqb_eq in E; contradiction | reflexivity].
Qed.

Lemma recurring_positive rem i :
  repeat_interval rem = Some i -> 0 < i -> recurring rem = Some i.
Proof. intros Hri Hpos; apply recurring_nonzero; [exact Hri | lia]. Qed.

Lemma recurring_interval rem i :
  recurring rem = Some i -> repeat_interval rem = Some i /\ i <> 0.
Proof.
  unfold recurring, truthy_int; destruct (repeat_interval rem) as [k|];
    [|discriminate].
  destruct (k =? 0) eqn:E; [discriminate|].
  intros H; injection H as <-; apply Z.eqb_neq in E; auto.
Qed.

Lemma composes_in_range rem us :
  in_datetime_range (when_ts rem) = true -> composes rem us = true.
Proof.
  intros H; unfold composes.
  destruct (find (fun x => uid x =? user_id rem) us); auto.
Qed.

Lemma rearmed_in_range rem us :
  in_datetime_range (when_ts rem) = true -> rearmed rem us = recurring rem.
Proof.
  intros H; unfold rearmed; rewrite composes_in_range by exact H; reflexivity.
Qed.

Lemma select_rows_after_fire rem us t i :
  select_by_id (id rem) t = Some rem ->
  rearmed rem us = Some i ->
  select_by_id (id rem) (rows_after_fire rem us t)
  = Some (set_when_scheduled (when_ts rem + i) rem).
Proof.
  intros Hsel Hrec; unfold rows_after_fire; rewrite Hrec.
  rewrite !select_update_where_id, Hsel by reflexivity; simpl.
  rewrite !String.eqb_refl; reflexivity.
Qed.

Lemma arm_only rid dt js j :
  In j (arm rid dt js) -> job_id j = job_name rid ->
  j = mk_job (job_name rid) dt rid.
Proof.
  intros Hj Hid; apply in_arm in Hj.
  destruct Hj as [[_ Hne]|Hj]; [contradiction | exact Hj].
Qed.

(** One firing of a recurring reminder, by the notifier, when the time it
    was due and the next one are dates. *)
Lemma notifier_notify_recurring env rid w rem i :
  select_by_id rid (reminders w) = Some rem ->
  recurring rem = Some i ->
  in_datetime_range (when_ts rem) = true ->
  in_datetime_range (when_ts rem + i) = true ->
  notifier_notify env rid w =
  (mk_world (rows_after_fire rem (users w) (reminders w)) (users w)
     (arm rid (mk_datetime (when_ts rem + i) None) (jobs w))
     (log w ++ fire_log env rem (users w)),
   Returned tt).
Proof.
  intros Hsel Hrec Hnow Hnext; rewrite (notifier_notify_found env _ _ _ Hsel).
  destruct (select_by_id_some _ _ _ Hsel) as [_ <-].
  unfold jobs_after_fire, fire_outcome.
  rewrite (rearmed_in_range _ _ Hnow), (composes_in_range _ _ Hnow), Hrec, Hnext.
  reflexivity.
Qed.

Lemma find_job_pending jid js :
  pending jid js = 1%nat ->
  exists j, find (fun j => job_id j =? jid)%string js = Some j /\
            In j js /\ job_id j = jid.
Proof.
  intros Hp.
  destruct (find (fun j => job_id j =? jid)%string js) as [j|] eqn:E.
  - exists j; split; [reflexivity|].
    apply find_some in E; destruct E as [Hin Heq].
    apply String.eqb_eq in Heq; auto.
  - exfalso.
    assert (H0 : pending jid js = 0%nat); [|lia].
    apply has_job_pending; unfold has_job.
    destruct (existsb (fun j => job_id j =? jid)%string js) eqn:Ex; [|reflexivity].
    apply existsb_exists in Ex; destruct Ex as (j & Hin & Heq).
    rewrite (find_none _ _ E j Hin) in Heq; discriminate.
Qed.

Lemma drop_arm rid dt js :
  arm rid dt (drop_job (job_name rid) js) = arm rid dt js.
Proof.
  unfold arm; f_equal; unfold drop_job.
  induction js as [|j js IH]; simpl; [reflexivity|].
  destruct (job_id j =? job_name rid)%string eqn:E; simpl; [exact IH|].
  rewrite E; simpl; f_equal; exact IH.
Qed.

(** One expiry of the timer of a recurring reminder. *)
Lemma expire_recurring env rid w rem i :
  select_by_id rid (reminders w) = Some rem ->
  recurring rem = Some i ->
  in_datetime_range (when_ts rem) = true ->
  in_datetime_range (when_ts rem + i) = true ->
  pending (job_name rid) (jobs w) = 1%nat ->
  (forall j, In j (jobs w) -> job_id j = job_name rid -> args j = rid) ->
  reminders (fst (expire env rid w))
    = rows_after_fire rem (users w) (reminders w) /\
  users (fst (expire env rid w)) = users w /\
  jobs (fst (expire env rid w))
    = arm rid (mk_datetime (when_ts rem + i) None) (jobs w).
Proof.
  intros Hsel Hrec Hnow Hnext Hone Hargs; unfold expire.
  destruct (find_job_pending _ _ Hone) as (j & Hfind & Hin & Hid).
  rewrite Hfind, run_job_eq; simpl fst.
  rewrite (Hargs j Hin Hid), Hid.
  rewrite (notifier_notify_recurring env rid _ rem i) by assumption.
  simpl; rewrite drop_arm; auto.
Qed.


Lemma spaced_times_shift T i n :
  map (fun k => T + i + Z.of_nat k * i) (seq 1 n)
  = map (fun k => T + Z.of_nat k * i) (seq 2 n).
Proof.
  rewrite <- (seq_shift n 1), map_map.
  apply map_ext; intros k; rewrite Nat2Z.inj_succ; lia.
Qed.

Lemma set_when_scheduled_again a b r :
  set_when_scheduled a (set_when_scheduled b r) = set_when_scheduled a r.
Proof. reflexivity. Qed.

Lemma when_ts_set_when_scheduled a r : when_ts (set_when_scheduled a r) = a.
Proof. reflexivity. Qed.

Lemma drop_job_idem jid js : drop_job jid (drop_job jid js) = drop_job jid js.
Proof. apply has_job_false_drop, has_job_drop. Qed.

Lemma arm_arm rid dt dt' js : arm rid dt (arm rid dt' js) = arm rid dt js.
Proof.
  unfold arm at 1 3; f_equal.
  unfold arm, drop_job; rewrite filter_app; cbn [filter job_id].
  rewrite String.eqb_refl; cbn [negb]; rewrite app_nil_r.
  apply drop_job_idem.
Qed.

(** [S n] expiries in a row, all for times that are dates. *)
Lemma fire_times_recurring env rid i n :
  0 < i ->
  forall w rem,
    select_by_id rid (reminders w) = Some rem ->
    repeat_interval rem = Some i ->
    -62135596800 <= when_ts rem ->
    when_ts rem + Z.of_nat (S n) * i <= 253402300799 ->
    pending (job_name rid) (jobs w) = 1%nat ->
    (forall j, In j (jobs w) -> job_id j = job_name rid -> args j = rid) ->
    fire_times env rid (S n) w
      = map (fun k => when_ts rem + Z.of_nat k * i) (seq 1 (S n)) /\
    select_by_id rid (reminders (firings env rid (S n) w))
      = Some (set_when_scheduled (when_ts rem + Z.of_nat (S n) * i) rem) /\
    jobs (firings env rid (S n) w)
      = arm rid (mk_datetime (when_ts rem + Z.of_nat (S n) * i) None)
          (jobs w).
Proof.
  intros Hpos; induction n as [|n IH]; intros w rem Hsel Hri Hlo Hhi Hone Hargs;
    pose proof (recurring_positive _ _ Hri Hpos) as Hrec;
    assert (Hnow : in_datetime_range (when_ts rem) = true)
      by (apply in_datetime_range_iff; nia);
    assert (Hnext : in_datetime_range (when_ts rem + i) = true)
      by (apply in_datetime_range_iff; nia);
    destruct (expire_recurring env rid w rem i Hsel Hrec Hnow Hnext Hone Hargs)
      as (Hrows & _ & Hjobs);
    destruct (select_by_id_some _ _ _ Hsel) as [_ Hid];
    assert (Hsel1 : select_by_id rid (reminders (fst (expire env rid w)))
                    = Some (set_when_scheduled (when_ts rem + i) rem))
      by (rewrite Hrows; subst rid; apply select_rows_after_fire;
          [assumption | rewrite rearmed_in_range; assumption]).
  - cbn [fire_times firings]; rewrite Hsel1, Hjobs.
    rewrite when_ts_set_when_scheduled.
    replace (Z.of_nat 1 * i) with i by lia.
    cbn [seq map]; replace (Z.of_nat 1 * i) with i by lia; auto.
  - assert (Hone1 : pending (job_name rid) (jobs (fst (expire env rid w)))
                    = 1%nat)
      by (rewrite Hjobs; apply pending_arm_same).
    assert (Hargs1 : forall j, In j (jobs (fst (expire env rid w))) ->
                               job_id j = job_name rid -> args j = rid).
    { rewrite Hjobs; intros j Hj Hjid.
      rewrite (arm_only _ _ _ _ Hj Hjid); reflexivity. }
    assert (Hnext' : when_ts rem + i + Z.of_nat (S n) * i
                     = when_ts rem + Z.of_nat (S (S n)) * i)
      by (rewrite (Nat2Z.inj_succ (S n)); lia).
    destruct (IH _ _ Hsel1 Hri) as (Htimes & Hrow & Hjs);
      try assumption;
      try (rewrite when_ts_set_when_scheduled; lia).
    rewrite when_ts_set_when_scheduled in Htimes, Hrow, Hjs.
    rewrite set_when_scheduled_again in Hrow.
    rewrite Hnext' in Hrow, Hjs.
    split; [|split].
    + change (fire_times env rid (S (S n)) w)
        with (match select_by_id rid (reminders (fst (expire env rid w))) with
              | Some r => when_ts r
                          :: fire_times env rid (S n) (fst (expire env rid w))
              | None => []
              end).
      rewrite Hsel1, Htimes, when_ts_set_when_scheduled.
      rewrite spaced_times_shift.
      change (seq 1 (S (S n))) with (1%nat :: seq 2 (S n)).
      cbn [map]; f_equal; lia.
    + exact Hrow.
    + change (firings env rid (S (S n)) w)
        with (firings env rid (S n) (fst (expire env rid w))).
      rewrite Hjs, Hjobs; apply arm_arm.
Qed.




(** ** Delivery failures (C5) *)

Lemma commits_app evs evs' : commits (evs ++ evs') = commits evs ++ commits evs'.
Proof. unfold commits; apply flat_map_app. Qed.

Lemma commits_send_email_log env m : commits (send_email_log env m) = [].
Proof.
  unfold send_email_log.
  destruct (negb (truthy_str (SMTP_HOST env))); [reflexivity|].
  destruct (smtp_delivers env m); reflexivity.
Qed.

Lemma commits_delivery_log env rem us : commits (delivery_log env rem us) = [].
Proof.
  unfold delivery_log.
  destruct (find (fun x => uid x =? user_id rem) us); [|reflexivity].
  destruct (in_datetime_range (when_ts rem)); [|reflexivity].
  apply commits_send_email_log.
Qed.

Lemma status_rows_after_fire rem us t :
  select_by_id (id rem) t = Some rem ->
  status_of (id rem) (rows_after_fire rem us t)
  = Some (match rearmed rem us with
          | Some _ => "scheduled"
          | None => "fired"
          end).
Proof.
  intros Hsel; unfold status_of.
  destruct (rearmed rem us) as [i|] eqn:Hrec.
  - rewrite (select_rows_after_fire _ _ _ _ Hsel Hrec); reflexivity.
  - unfold rows_after_fire; rewrite Hrec.
    rewrite select_update_where_id, Hsel by reflexivity; simpl.
    rewrite String.eqb_refl; reflexivity.
Qed.

Lemma recurring_none rem :
  repeat_interval rem = None \/ repeat_interval rem = Some 0 ->
  recurring rem = None.
Proof. unfold recurring; intros [-> | ->]; reflexivity. Qed.

Lemma rearmed_none rem us :
  repeat_interval rem = None \/ repeat_interval rem = Some 0 ->
  rearmed rem us = None.
Proof.
  intros H; unfold rearmed; rewrite (recurring_none _ H).
  destruct (composes rem us); reflexivity.
Qed.

(** The statements the notifier commits after the first one. *)
Lemma commits_rearm_log rem us :
  commits (rearm_log rem us) = [] \/
  exists i, repeat_interval rem = Some i /\ i <> 0 /\
            commits (rearm_log rem us)
            = [UPDATE_when_scheduled (when_ts rem + i) (id rem)].
Proof.
  unfold rearm_log, rearmed.
  destruct (composes rem us); [|left; reflexivity].
  destruct (recurring rem) as [i|] eqn:Hrec; [|left; reflexivity].
  right; exists i; destruct (recurring_interval _ _ Hrec) as [Hri Hnz].
  split; [exact Hri|]; split; [exact Hnz|].
  destruct (in_datetime_range (when_ts rem + i)); reflexivity.
Qed.

(** C5.  Let the notifier find the reminder as [rem].  The first thing it
    does is to commit the status fired; whatever it logs afterwards, the
    delivery included, commits nothing but the re-arming statement.
    [send_email] returns normally whatever the SMTP settings and the fate of
    the SMTP session, and touches neither the table nor the timers.  The
    outcome of the notifier and the table, the users and the timers it
    leaves are the same for all SMTP settings and fates of the session.  A
    reminder without a repeat interval (NULL or zero) is left fired, with
    every other column as it was.  A reminder with a repeat interval [i]
    that is not zero, whose due time and next time are dates (years 1 to
    9999), is re-armed also when the delivery fails: the notifier returns
    normally, the row is scheduled for [when_ts rem + i], and the timers of
    the id are replaced by one for that time. *)
Theorem notifier_notify_survives_delivery_failure env rid w rem :
  select_by_id rid (reminders w) = Some rem ->
  (exists evs,
     log (fst (notifier_notify env rid w))
       = log w ++ Committed (UPDATE_status "fired" rid) :: evs /\
     (commits evs = [] \/
      exists i, repeat_interval rem = Some i /\ i <> 0 /\
                commits evs = [UPDATE_when_scheduled (when_ts rem + i) rid])) /\
  (forall m w0,
     exists delivered,
       send_email env m w0
       = (mk_world (reminders w0) (users w0) (jobs w0)
            (log w0 ++ send_email_log env m),
          Returned delivered) /\
       commits (send_email_log env m) = []) /\
  (forall env',
     snd (notifier_notify env' rid w) = snd (notifier_notify env rid w) /\
     reminders (fst (notifier_notify env' rid w))
       = reminders (fst (notifier_notify env rid w)) /\
     users (fst (notifier_notify env' rid w))
       = users (fst (notifier_notify env rid w)) /\
     jobs (fst (notifier_notify env' rid w))
       = jobs (fst (notifier_notify env rid w))) /\
  (repeat_interval rem = None \/ repeat_interval rem = Some 0 ->
   select_by_id rid (reminders (fst (notifier_notify env rid w)))
     = Some (mk_reminder rid (user_id rem) (title rem) (body rem)
               (when_ts rem) (created_at rem) "fired" (snooze_until rem)
               (recurrence rem) (repeat_interval rem) (category rem)
               (tags rem)) /\
   jobs (fst (notifier_notify env rid w)) = jobs w /\
   (-62135596800 <= when_ts rem <= 253402300799 ->
    snd (notifier_notify env rid w) = Returned tt)) /\
  (forall i,
     repeat_interval rem = Some i -> i <> 0 ->
     -62135596800 <= when_ts rem <= 253402300799 ->
     -62135596800 <= when_ts rem + i <= 253402300799 ->
     snd (notifier_notify env rid w) = Returned tt /\
     select_by_id rid (reminders (fst (notifier_notify env rid w)))
       = Some (mk_reminder rid (user_id rem) (title rem) (body rem)
                 (when_ts rem + i) (created_at rem) "scheduled"
                 (snooze_until rem) (recurrence rem) (Some i) (category rem)
                 (tags rem)) /\
     jobs (fst (notifier_notify env rid w))
       = drop_job (job_name rid) (jobs w)
         ++ [mk_job (job_name rid) (mk_datetime (when_ts rem + i) None) rid] /\
     pending (job_name rid) (jobs (fst (notifier_notify env rid w))) = 1%nat).
Proof.
  intros Hsel.
  destruct (select_by_id_some _ _ _ Hsel) as [_ Hid]; subst rid.
  split.
  { rewrite (notifier_notify_found env _ _ _ Hsel); cbn [fst log].
    exists (delivery_log env rem (users w) ++ rearm_log rem (users w)).
    split; [reflexivity|].
    rewrite commits_app, commits_delivery_log; apply commits_rearm_log. }
  split.
  { intros m w0; destruct (send_email_eq env m w0) as [b Hb].
    exists b; split; [exact Hb | apply commits_send_email_log]. }
  split.
  { intros env'; rewrite !(notifier_notify_found _ _ _ _ Hsel); simpl.
    repeat split. }
  split.
  - intros Hnone; rewrite (notifier_notify_found env _ _ _ Hsel).
    cbn [fst snd reminders jobs].
    unfold rows_after_fire, jobs_after_fire, fire_outcome.
    rewrite (rearmed_none _ _ Hnone), (recurring_none _ Hnone).
    split; [|split; [reflexivity|]].
    + rewrite select_update_where_id, Hsel by reflexivity; simpl.
      rewrite String.eqb_refl; reflexivity.
    + intros Hin; apply in_datetime_range_iff in Hin.
      rewrite (composes_in_range _ _ Hin); reflexivity.
  - intros i Hri Hnz Hnow Hnext.
    apply in_datetime_range_iff in Hnow, Hnext.
    pose proof (recurring_nonzero _ _ Hri Hnz) as Hrec.
    rewrite (notifier_notify_recurring env _ w rem i Hsel Hrec Hnow Hnext).
    cbn [fst snd reminders jobs].
    split; [reflexivity|].
    split.
    { rewrite (select_rows_after_fire rem (users w) _ i Hsel)
        by (rewrite rearmed_in_range; assumption).
      unfold set_when_scheduled; rewrite Hri; reflexivity. }
    split; [reflexivity | apply pending_arm_same].
Qed.

Lemma notifier_notify_survives_delivery_failure_witness :
  select_by_id "r1" (reminders with_standup)
    = Some (new_row 0 1000 "r1" standup alice) /\
  snd (notifier_notify failing_smtp "r1" with_standup) = Returned tt /\
  In (Smtp_session
        (mk_message "alice@example.org" "Reminder: Standup"
           (Some "Daily sync") (mk_datetime 1060 None)) false)
     (log (fst (notifier_notify failing_smtp "r1" with_standup))) /\
  option_map status
    (select_by_id "r1"
       (reminders (fst (notifier_notify failing_smtp "r1" with_standup))))
    = Some "scheduled" /\
  option_map when_ts
    (select_by_id "r1"
       (reminders (fst (notifier_notify failing_smtp "r1" with_standup))))
    = Some 87460 /\
  jobs with_standup
    = [mk_job (job_name "r1") (mk_datetime 1060 (Some 0)) "r1"] /\
  jobs (fst (notifier_notify failing_smtp "r1" with_standup))
    = [mk_job (job_name "r1") (mk_datetime 87460 None) "r1"] /\
  reminders (fst (notifier_notify no_smtp "r1" with_standup))
    = reminders (fst (notifier_notify failing_smtp "r1" with_standup)).
Proof.
  assert (Hsel : select_by_id "r1" (reminders with_standup)
                 = Some (new_row 0 1000 "r1" standup alice)) by reflexivity.
  destruct (notifier_notify_survives_delivery_failure failing_smtp "r1"
              with_standup _ Hsel) as (_ & _ & Hany & _ & Hrearm).
  assert (Hri : repeat_interval (new_row 0 1000 "r1" standup alice)
                = Some 86400) by reflexivity.
  assert (Hnz : 86400 <> 0) by discriminate.
  assert (Hnow : -62135596800
                 <= when_ts (new_row 0 1000 "r1" standup alice)
                 <= 253402300799)
    by (split; intros H; discriminate H).
  assert (Hnext : -62135596800
                  <= when_ts (new_row 0 1000 "r1" standup alice) + 86400
                  <= 253402300799)
    by (split; intros H; discriminate H).
  destruct (Hrearm 86400 Hri Hnz Hnow Hnext) as (Hret & Hrow & Hjobs & _).
  split; [exact Hsel|].
  split; [exact Hret|].
  split; [vm_compute; auto|].
  split; [rewrite Hrow; reflexivity|].
  split; [rewrite Hrow; reflexivity|].
  split; [reflexivity|].
  split; [rewrite Hjobs; reflexivity|].
  exact (proj1 (proj2 (Hany no_smtp))).
Defined.

(** ** Cancelling (C7) *)

Lemma update_where_id_idem rid f t :
  (forall r, id (f r) = id r) -> (forall r, f (f r) = f r) ->
  update_where_id rid f (update_where_id rid f t) = update_where_id rid f t.
Proof.
  intros Hid Hff; unfold update_where_id; rewrite map_map.
  apply map_ext; intros r.
  destruct (id r =? rid)%string eqn:E; [|rewrite E; reflexivity].
  rewrite Hid, E; apply Hff.
Qed.

Lemma try_remove_job_none jid w :
  pending jid (jobs w) = 0%nat ->
  try_except (remove_job jid) (fun _ => ret tt) w = (w, Returned tt).
Proof.
  intros Hp; apply has_job_pending in Hp.
  rewrite try_remove_job, (has_job_false_drop _ _ Hp), world_eta; reflexivity.
Qed.

(** C7.  Let the caller own the reminder [rid], whatever its status (in
    particular when it is scheduled).  Cancelling it returns normally, and
    so does cancelling it a second time; after either call the status is
    cancelled and the id has no pending timer, and the second call leaves
    the table, the users and the timers as the first left them.  The
    guarded removal of a timer that does not exist returns normally and
    changes nothing. *)
Theorem cancel_reminder_idempotent rid u w rem :
  select_by_id rid (reminders w) = Some rem ->
  user_id rem = uid u ->
  snd (cancel_reminder rid u w) = Returned (rid, "cancelled") /\
  snd (cancel_reminder rid u (fst (cancel_reminder rid u w)))
    = Returned (rid, "cancelled") /\
  status_of rid (reminders (fst (cancel_reminder rid u w)))
    = Some "cancelled" /\
  status_of rid
    (reminders (fst (cancel_reminder rid u (fst (cancel_reminder rid u w)))))
    = Some "cancelled" /\
  pending (job_name rid) (jobs (fst (cancel_reminder rid u w))) = 0%nat /\
  pending (job_name rid)
    (jobs (fst (cancel_reminder rid u (fst (cancel_reminder rid u w)))))
    = 0%nat /\
  reminders (fst (cancel_reminder rid u (fst (cancel_reminder rid u w))))
    = reminders (fst (cancel_reminder rid u w)) /\
  users (fst (cancel_reminder rid u (fst (cancel_reminder rid u w))))
    = users (fst (cancel_reminder rid u w)) /\
  jobs (fst (cancel_reminder rid u (fst (cancel_reminder rid u w))))
    = jobs (fst (cancel_reminder rid u w)) /\
  (forall jid w0,
     pending jid (jobs w0) = 0%nat ->
     try_except (remove_job jid) (fun _ => ret tt) w0 = (w0, Returned tt)).
Proof.
  intros Hsel Hown.
  destruct (select_by_id_some _ _ _ Hsel) as [_ Hid].
  pose proof (not_owned_false rem u rid _ Hsel Hown) as Hok.
  rewrite (cancel_reminder_owned rid u w Hok); simpl fst; simpl snd.
  assert (Hsel1 : select_by_id rid
                    (update_where_id rid (set_status "cancelled") (reminders w))
                  = Some (set_status "cancelled" rem)).
  { rewrite select_update_where_id, Hsel by reflexivity; simpl.
    rewrite Hid, String.eqb_refl; reflexivity. }
  set (w1 := mk_world _ _ _ _).
  assert (Hok1 : not_owned (select_by_id rid (reminders w1)) u = false).
  { apply (not_owned_false (set_status "cancelled" rem));
      [exact Hsel1 | exact Hown]. }
  rewrite (cancel_reminder_owned rid u w1 Hok1); subst w1; simpl.
  rewrite update_where_id_idem by reflexivity.
  rewrite drop_job_idem, pending_drop_same.
  unfold status_of; rewrite Hsel1; simpl.
  repeat split; intros jid w0; apply try_remove_job_none.
Qed.

Lemma cancel_reminder_idempotent_witness :
  select_by_id "r1" (reminders with_standup)
    = Some (new_row 0 1000 "r1" standup alice) /\
  user_id (new_row 0 1000 "r1" standup alice) = uid alice /\
  snd (cancel_reminder "r1" alice (fst (cancel_reminder "r1" alice with_standup)))
    = Returned ("r1", "cancelled") /\
  pending (job_name "r1") (jobs initial) = 0%nat /\
  try_except (remove_job (job_name "r1")) (fun _ => ret tt) initial
    = (initial, Returned tt).
Proof.
  assert (Hsel : select_by_id "r1" (reminders with_standup)
                 = Some (new_row 0 1000 "r1" standup alice)) by reflexivity.
  assert (Hown : user_id (new_row 0 1000 "r1" standup alice) = uid alice)
    by reflexivity.
  assert (Hnone : pending (job_name "r1") (jobs initial) = 0%nat)
    by reflexivity.
  destruct (cancel_reminder_idempotent "r1" alice with_standup _ Hsel Hown)
    as (_ & Hsecond & _ & _ & _ & _ & _ & _ & _ & Hnoop).
  repeat (split; [assumption|]).
  exact (Hnoop _ _ Hnone).
Defined.

(** ** Snoozing (C8) *)




(** ** Ownership (C9) *)

Lemma unique_id_row t r r' :
  NoDup (map id t) -> In r t -> In r' t -> id r = id r' -> r = r'.
Proof.
  induction t as [|a t IH]; simpl; intros H Hr Hr' Hid; [contradiction|].
  inversion H as [|x l Hnot Hrest]; subst.
  destruct Hr as [->|Hr]; destruct Hr' as [->|Hr']; auto.
  - exfalso; apply Hnot; rewrite Hid; apply in_map; exact Hr'.
  - exfalso; apply Hnot; rewrite <- Hid; apply in_map; exact Hr.
Qed.

(** C9.  [get_reminders] changes nothing and returns exactly the
    projections of the rows whose owner is the caller; in a reachable world
    no entry of the list carries the id of a row owned by somebody else.
    When the reminder [rid] exists and belongs to another user, snooze,
    cancel and delete raise the HTTP error 404 of their ownership check (the
    one they also raise for an unknown id) and leave the whole world as it
    was: no statement is committed and no timer is touched. *)
Theorem ownership_is_checked_before_mutation ua w :
  (exists ls,
     get_reminders ua w = (w, Returned ls) /\
     (forall l, In l ls <->
                exists r, In r (reminders w) /\ user_id r = uid ua /\
                          l = to_listed r) /\
     (reachable w ->
      forall l r, In l ls -> In r (reminders w) -> id r = l_id l ->
                  user_id r = uid ua)) /\
  (forall rid rem,
     select_by_id rid (reminders w) = Some rem ->
     user_id rem <> uid ua ->
     (forall now minutes,
        snooze_reminder now rid minutes ua w
          = (w, Raised (HTTPException 404 "Not found"))) /\
     cancel_reminder rid ua w
       = (w, Raised (HTTPException 404 "Reminder not found")) /\
     delete_reminder rid ua w
       = (w, Raised (HTTPException 404 "Reminder not found"))).
Proof.
  assert (Hlist : forall l,
    In l (map to_listed
            (filter (fun r => user_id r =? uid ua) (reminders w))) <->
    exists r, In r (reminders w) /\ user_id r = uid ua /\ l = to_listed r).
  { intros l; rewrite in_map_iff; split.
    - intros (r & <- & Hr); apply filter_In in Hr; destruct Hr as [Hr Hu].
      apply Z.eqb_eq in Hu; exists r; auto.
    - intros (r & Hr & Hu & ->); exists r; split; [reflexivity|].
      apply filter_In; split; [exact Hr | apply Z.eqb_eq; exact Hu]. }
  split.
  - eexists; split; [reflexivity|]; split; [exact Hlist|].
    intros Hreach l r Hl Hr Hid.
    apply Hlist in Hl; destruct Hl as (r0 & Hr0 & Hu & ->).
    rewrite (unique_id_row _ _ _
               (ids_unique _ (reachable_consistent _ Hreach)) Hr Hr0 Hid).
    exact Hu.
  - intros rid rem Hsel Hother.
    pose proof (not_owned_other rem ua rid _ Hsel Hother) as Hno.
    split; [intros now minutes; apply snooze_reminder_rejected; exact Hno|].
    split; [apply cancel_reminder_rejected | apply delete_reminder_rejected];
      exact Hno.
Qed.

Lemma ownership_is_checked_before_mutation_witness :
  reachable two_owners /\
  select_by_id "r2" (reminders two_owners)
    = Some (new_row 0 1000 "r2" dentist bob) /\
  user_id (new_row 0 1000 "r2" dentist bob) <> uid alice /\
  snooze_reminder 1010 "r2" 5 alice two_owners
    = (two_owners, Raised (HTTPException 404 "Not found")) /\
  (exists ls,
     get_reminders alice two_owners = (two_owners, Returned ls) /\
     forall l, In l ls -> l_id l <> "r2").
Proof.
  assert (Hsel : select_by_id "r2" (reminders two_owners)
                 = Some (new_row 0 1000 "r2" dentist bob)) by reflexivity.
  assert (Hother : user_id (new_row 0 1000 "r2" dentist bob) <> uid alice)
    by discriminate.
  destruct (ownership_is_checked_before_mutation alice two_owners)
    as [(ls & Hget & _ & Hnever) Hmut].
  split; [exact reachable_two_owners|].
  split; [exact Hsel|].
  split; [exact Hother|].
  split; [exact (proj1 (Hmut "r2" _ Hsel Hother) 1010 5)|].
  exists ls; split; [exact Hget|].
  intros l Hl Hid; apply Hother.
  apply (Hnever reachable_two_owners l (new_row 0 1000 "r2" dentist bob) Hl).
  - vm_compute; auto.
  - symmetry; exact Hid.
Defined.

(** ** Polling (C3) *)

Lemma poll_notifications_eq since u w :
  poll_notifications since u w =
  (w, Returned (map to_notification (filter (to_report since u) (reminders w)))).
Proof.
  unfold poll_notifications, to_report, truthy_int.
  destruct since as [s|]; [destruct (s =? 0)|]; simpl; do 3 f_equal;
    apply filter_ext; intros r;
    destruct (status r =? "fired")%string, (user_id r =? uid u);
    simpl; try reflexivity;
    destruct (s <? when_ts r); reflexivity.
Qed.




(** ** Status transitions (C2) *)

Lemma select_by_id_app rid t l :
  select_by_id rid (t ++ l) =
  match select_by_id rid t with
  | Some r => Some r
  | None => select_by_id rid l
  end.
Proof.
  unfold select_by_id; induction t as [|a t IH]; simpl; [reflexivity|].
  destruct (id a =? rid)%string; [reflexivity | exact IH].
Qed.

Lemma select_by_id_delete rid rid' t :
  rid' <> rid ->
  select_by_id rid' (filter (fun r => negb (id r =? rid)%string) t)
  = select_by_id rid' t.
Proof.
  intros Hne; unfold select_by_id; induction t as [|a t IH]; simpl;
    [reflexivity|].
  destruct (id a =? rid)%string eqn:E; simpl.
  - apply String.eqb_eq in E.
    destruct (id a =? rid')%string eqn:E'; [|exact IH].
    apply String.eqb_eq in E'; congruence.
  - destruct (id a =? rid')%string; [reflexivity | exact IH].
Qed.

(** A change of status made by an UPDATE is made to the id it names. *)
Lemma update_changes rid f t rid' a b :
  (forall r, id (f r) = id r) ->
  status_of rid' t = Some a ->
  status_of rid' (update_where_id rid f t) = Some b ->
  a <> b ->
  rid' = rid /\
  exists r, select_by_id rid t = Some r /\ a = status r /\ b = status (f r).
Proof.
  intros Hid Ha Hb Hab; unfold status_of in *.
  rewrite select_update_where_id in Hb by exact Hid.
  destruct (select_by_id rid' t) as [r|] eqn:Hsel; [|discriminate].
  destruct (select_by_id_some _ _ _ Hsel) as [_ Hr].
  simpl in Ha, Hb; injection Ha as <-.
  destruct (id r =? rid)%string eqn:E.
  - apply String.eqb_eq in E; injection Hb as <-.
    split; [congruence|].
    exists r; repeat split; congruence.
  - injection Hb as <-; contradiction.
Qed.

Lemma commits_fire_log env rem us :
  commits (fire_log env rem us) =
  UPDATE_status "fired" (id rem)
  :: match rearmed rem us with
     | Some i => [UPDATE_when_scheduled (when_ts rem + i) (id rem)]
     | None => []
     end.
Proof.
  unfold fire_log; cbn [commits flat_map app].
  change (flat_map _ ?l) with (commits l).
  rewrite commits_app, commits_delivery_log; unfold rearm_log.
  destruct (rearmed rem us) as [i|]; [|reflexivity].
  destruct (in_datetime_range (when_ts rem + i)); reflexivity.
Qed.

(** The statements a request commits account for the change of the table,
    and every change of status they make is one of the transitions of the
    code. *)
Lemma effect_audit w t' js' evs :
  consistent w ->
  effect w t' js' evs ->
  fold_left apply_statement (commits evs) (reminders w) = t' /\
  audit coded_transition (reminders w) (commits evs).
Proof.
  intros [Hval Hname Hsched Hone Huniq] Heff.
  assert (Hvalid : forall rid a, status_of rid (reminders w) = Some a ->
                                 valid_status a).
  { intros rid a Ha; unfold status_of in Ha.
    destruct (select_by_id rid (reminders w)) as [r|] eqn:E; [|discriminate].
    injection Ha as <-; apply Hval.
    exact (proj1 (select_by_id_some _ _ _ E)). }
  destruct Heff as [evs Hnone|tz now rid p u Hfresh|ts rid|ts rid|rid|rid
                   |j Hj Hsel|env j rem Hj Hsel].
  - rewrite Hnone; simpl; auto.
  - (* create *)
    cbn [commits flat_map app fold_left audit].
    unfold apply_statement; simpl run_statement; simpl id; rewrite Hfresh.
    split; [reflexivity|]; split; [|exact I].
    intros rid' a b Ha Hb Hab; exfalso; apply Hab.
    unfold status_of in *; rewrite select_by_id_app in Hb.
    destruct (select_by_id rid' (reminders w)); [congruence | discriminate].
  - (* snooze *)
    cbn [commits flat_map app fold_left audit].
    unfold apply_statement; simpl run_statement.
    split; [reflexivity|]; split; [|exact I].
    intros rid' a b Ha Hb Hab.
    destruct (update_changes _ _ _ _ _ _ (set_snooze_id ts) Ha Hb Hab)
      as (_ & r & _ & _ & ->).
    apply snooze_any; eapply Hvalid; eassumption.
  - (* snooze, the date refused *)
    cbn [commits flat_map app fold_left audit].
    unfold apply_statement; simpl run_statement.
    split; [reflexivity|]; split; [|exact I].
    intros rid' a b Ha Hb Hab.
    destruct (update_changes _ _ _ _ _ _ (set_snooze_id ts) Ha Hb Hab)
      as (_ & r & _ & _ & ->).
    apply snooze_any; eapply Hvalid; eassumption.
  - (* cancel *)
    cbn [commits flat_map app fold_left audit].
    unfold apply_statement; simpl run_statement.
    split; [reflexivity|]; split; [|exact I].
    intros rid' a b Ha Hb Hab.
    destruct (update_changes _ _ _ _ _ _ (set_status_id "cancelled") Ha Hb Hab)
      as (_ & r & _ & _ & ->).
    apply cancel_any; eapply Hvalid; eassumption.
  - (* delete *)
    cbn [commits flat_map app fold_left audit].
    unfold apply_statement; simpl run_statement.
    split; [reflexivity|]; split; [|exact I].
    intros rid' a b Ha Hb Hab; exfalso; apply Hab.
    unfold status_of in *.
    destruct (select_by_id rid' (filter _ (reminders w))) as [r|] eqn:E;
      [|discriminate].
    destruct (select_by_id_some _ _ _ E) as [Hin Hr].
    apply filter_In in Hin; destruct Hin as [_ Hne].
    apply negb_true_iff, String.eqb_neq in Hne.
    rewrite select_by_id_delete in E by congruence.
    rewrite E in Ha; congruence.
  - (* expiry, reminder gone *)
    simpl; auto.
  - (* expiry, reminder found *)
    destruct (select_by_id_some _ _ _ Hsel) as [Hrem Hidrem].
    assert (Hst : status rem = "scheduled") by (apply (Hsched j); auto).
    rewrite commits_fire_log; unfold rows_after_fire.
    cbn [fold_left audit].
    unfold apply_statement at 1 3 4; simpl run_statement.
    assert (Hfirst : forall rid' a b,
               status_of rid' (reminders w) = Some a ->
               status_of rid'
                 (update_where_id (id rem) (set_status "fired") (reminders w))
                 = Some b ->
               a <> b ->
               coded_transition (UPDATE_status "fired" (id rem)) a b).
    { intros rid' a b Ha Hb Hab.
      destruct (update_changes _ _ _ _ _ _ (set_status_id "fired") Ha Hb Hab)
        as (_ & r & Hr & -> & ->).
      rewrite Hidrem, Hsel in Hr; injection Hr as <-.
      rewrite Hst; apply fire_scheduled. }
    destruct (rearmed rem (users w)) as [i|]; cbn [fold_left audit].
    + unfold apply_statement; simpl run_statement.
      split; [reflexivity|]; split; [exact Hfirst|]; split; [|exact I].
      intros rid' a b Ha Hb Hab.
      destruct (update_changes _ _ _ _ _ _
                  (set_when_scheduled_id (when_ts rem + i)) Ha Hb Hab)
        as (-> & r & Hr & -> & ->).
      rewrite select_update_where_id in Hr by reflexivity.
      rewrite Hidrem, Hsel in Hr; simpl in Hr.
      rewrite <- Hidrem, String.eqb_refl in Hr; injection Hr as <-.
      apply rearm_fired.
    + split; [reflexivity|]; split; [exact Hfirst | exact I].
Qed.

(** C2 as it is stated fails: the transitions of the specification do not
    cover the code.  Alice's dentist reminder does not repeat and has fired;
    when she snoozes it, the one statement the request commits takes it from
    fired to scheduled, which the specification allows to the re-arming of a
    recurrence only. *)
Lemma snooze_reschedules_fired_reminder :
  reachable dentist_fired /\
  enabled (Snooze 2000 "r1" 5 alice) dentist_fired /\
  select_by_id "r1" (reminders dentist_fired)
    = Some (set_status "fired" (new_row 0 1000 "r1" dentist alice)) /\
  recurring (set_status "fired" (new_row 0 1000 "r1" dentist alice)) = None /\
  log (fst (perform (Snooze 2000 "r1" 5 alice) dentist_fired))
    = log dentist_fired
      ++ [Committed (UPDATE_snooze 2300 "r1");
          Print (Scheduled (job_name "r1") (mk_datetime 2300 None))] /\
  status_of "r1" (reminders dentist_fired) = Some "fired" /\
  status_of "r1"
    (reminders (fst (perform (Snooze 2000 "r1" 5 alice) dentist_fired)))
    = Some "scheduled" /\
  ~ specified_transition (UPDATE_snooze 2300 "r1") "fired" "scheduled" /\
  ~ audit specified_transition (reminders dentist_fired)
      [UPDATE_snooze 2300 "r1"].
Proof.
  assert (Hno : ~ specified_transition (UPDATE_snooze 2300 "r1")
                    "fired" "scheduled").
  { intros [[H _]|[[H _]|(_ & _ & ts & rid & H)]]; discriminate. }
  split; [exact reachable_dentist_fired|].
  split; [exact I|].
  do 5 (split; [reflexivity|]).
  split; [exact Hno|].
  intros [H _]; apply Hno, (H "r1"); [reflexivity | reflexivity | discriminate].
Qed.

(** C2, as the code has it.  In every reachable world each row has one of
    the three statuses, and so it has after any further request.  The
    statements a request commits account for the change it makes to the
    table, and every change of status they make is one of: scheduled to
    fired by the notifier, any status to cancelled by cancel, any status to
    scheduled by snooze, and fired to scheduled by the re-arming of a
    recurrence. *)
Theorem status_changes_follow_the_code q w :
  reachable w ->
  enabled q w ->
  (forall r, In r (reminders w) -> valid_status (status r)) /\
  (forall r, In r (reminders (fst (perform q w))) -> valid_status (status r)) /\
  exists evs,
    log (fst (perform q w)) = log w ++ evs /\
    fold_left apply_statement (commits evs) (reminders w)
      = reminders (fst (perform q w)) /\
    audit coded_transition (reminders w) (commits evs).
Proof.
  intros Hreach Hen.
  pose proof (reachable_consistent _ Hreach) as Hw.
  pose proof (reachable_consistent _ (reachable_step q w Hreach Hen)) as Hw'.
  split; [exact (statuses_valid _ Hw)|].
  split; [exact (statuses_valid _ Hw')|].
  destruct (perform_effect q w Hen) as (evs & Heff & Hlog).
  exists evs; split; [exact Hlog|].
  exact (effect_audit _ _ _ _ Hw Heff).
Qed.

Lemma status_changes_follow_the_code_witness :
  reachable dentist_fired /\
  enabled (Snooze 2000 "r1" 5 alice) dentist_fired /\
  exists evs,
    log (fst (perform (Snooze 2000 "r1" 5 alice) dentist_fired))
      = log dentist_fired ++ evs /\
    fold_left apply_statement (commits evs) (reminders dentist_fired)
      = reminders (fst (perform (Snooze 2000 "r1" 5 alice) dentist_fired)) /\
    audit coded_transition (reminders dentist_fired) (commits evs).
Proof.
  split; [exact reachable_dentist_fired|].
  split; [exact I|].
  exact (proj2 (proj2 (status_changes_follow_the_code
                         (Snooze 2000 "r1" 5 alice) dentist_fired
                         reachable_dentist_fired I))).
Defined.

(** * Further properties of the code *)

(** ** Requests case by case *)

Lemma not_owned_found rid t u :
  not_owned (select_by_id rid t) u = false ->
  exists rem, select_by_id rid t = Some rem /\ user_id rem = uid u.
Proof.
  destruct (select_by_id rid t) as [rem|]; simpl; [|discriminate].
  intros H; apply negb_false_iff, Z.eqb_eq in H; eauto.
Qed.

Lemma perform_change q w :
  change q w (reminders (fst (perform q w))) (jobs (fst (perform q w))).
Proof.
  destruct q as [tz now rid p u|now rid m u|rid u|rid u|env j|us];
    unfold perform.
  - destruct (select_by_id rid (reminders w)) as [r|] eqn:E; unfold bind.
    + rewrite (create_reminder_clash tz now rid p u w r E); simpl.
      eapply change_create_clash; exact E.
    + rewrite (create_reminder_fresh tz now rid p u w E); simpl.
      apply change_create; exact E.
  - destruct (not_owned (select_by_id rid (reminders w)) u) eqn:E; unfold bind.
    + rewrite (snooze_reminder_rejected now rid m u w E); simpl.
      apply change_snooze_rejected; exact E.
    + destruct (not_owned_found _ _ _ E) as (rem & Hsel & Hown).
      destruct (in_datetime_range (now + m * 60)) eqn:R.
      * rewrite (snooze_reminder_owned now rid m u w E R); simpl.
        eapply change_snooze; eassumption.
      * rewrite (snooze_reminder_out_of_range now rid m u w E R); simpl.
        eapply change_snooze_raised; eassumption.
  - destruct (not_owned (select_by_id rid (reminders w)) u) eqn:E; unfold bind.
    + rewrite (cancel_reminder_rejected rid u w E); simpl.
      apply change_cancel_rejected; exact E.
    + rewrite (cancel_reminder_owned rid u w E); simpl.
      destruct (not_owned_found _ _ _ E) as (rem & Hsel & Hown).
      eapply change_cancel; eassumption.
  - destruct (not_owned (select_by_id rid (reminders w)) u) eqn:E; unfold bind.
    + rewrite (delete_reminder_rejected rid u w E); simpl.
      apply change_delete_rejected; exact E.
    + rewrite (delete_reminder_owned rid u w E); simpl.
      destruct (not_owned_found _ _ _ E) as (rem & Hsel & Hown).
      eapply change_delete; eassumption.
  - rewrite run_job_eq; simpl fst.
    destruct (select_by_id (args j) (reminders w)) as [rem|] eqn:E.
    + rewrite (notifier_notify_found env _ _ rem) by exact E; simpl.
      apply change_expire; exact E.
    + rewrite notifier_notify_missing by exact E; simpl.
      apply change_expire_missing; exact E.
  - simpl; apply change_auth.
Qed.

(** ** Timers and scheduled reminders go together *)

Lemma has_row_iff x t :
  (exists r, In r t /\ id r = x) <-> In x (map id t).
Proof.
  rewrite in_map_iff; split; intros (r & H1 & H2); exists r; auto.
Qed.

Lemma jobs_after_fire_cases rem us js k :
  In k (jobs_after_fire rem us js) ->
  In k js \/ (args k = id rem /\ job_id k = job_name (id rem) /\
              rearmed rem us <> None).
Proof.
  unfold jobs_after_fire; destruct (rearmed rem us) as [i|]; [|auto].
  destruct (in_datetime_range (when_ts rem + i)); [|auto].
  intros Hk; apply (in_arm (id rem)) in Hk; destruct Hk as [[Hk _]| ->];
    [auto|].
  right; simpl; repeat split; discriminate.
Qed.

Lemma pending_jobs_after_fire_other rem us js jid :
  jid <> job_name (id rem) ->
  pending jid (jobs_after_fire rem us (drop_job (job_name (id rem)) js))
  = pending jid js.
Proof.
  intros Hne; unfold jobs_after_fire; destruct (rearmed rem us) as [i|];
    [destruct (in_datetime_range (when_ts rem + i))|];
    try (apply pending_drop_other; exact Hne).
  fold (arm (id rem) (mk_datetime (when_ts rem + i) None)
          (drop_job (job_name (id rem)) js)).
  rewrite (pending_arm_other (id rem)), pending_drop_other by exact Hne.
  reflexivity.
Qed.

(** The due time of the row the notifier has fired and re-armed. *)
Lemma rows_after_fire_when rem us t r' i :
  rearmed rem us = Some i ->
  In r' (rows_after_fire rem us t) -> id r' = id rem ->
  when_ts r' = when_ts rem + i.
Proof.
  intros Hre Hr' Hid; unfold rows_after_fire in Hr'; rewrite Hre in Hr'.
  apply update_where_id_cases in Hr'; destruct Hr' as (r1 & H1 & Hr').
  destruct Hr' as [[_ ->]|[Hne ->]]; [reflexivity|].
  apply update_where_id_cases in H1; destruct H1 as (r & _ & Hr1).
  destruct Hr1 as [[Heq ->]|[Hne' ->]]; simpl in *; congruence.
Qed.

Lemma synchronised_initial : synchronised initial.
Proof. constructor; simpl; contradiction. Qed.

Lemma change_synchronised q w t' js' us' l' :
  consistent w -> synchronised w -> enabled q w -> change q w t' js' ->
  synchronised (mk_world t' us' js' l').
Proof.
  intros [Hval Hname Hsched Hone Huniq] [Hrows Htimers] Hen Hch.
  assert (Hrows' : forall j, In j (jobs w) -> In (args j) (map id (reminders w)))
    by (intros j Hj; apply has_row_iff, Hrows, Hj).
  destruct Hch as [tz now rid p u w r Hsel|tz now rid p u w Hfresh
                  |now rid m u w Hno|now rid m u w rem Hsel Hown Hin
                  |now rid m u w rem Hsel Hown Hout
                  |rid u w Hno|rid u w rem Hsel Hown
                  |rid u w Hno|rid u w rem Hsel Hown
                  |env j w Hsel|env j w rem Hsel|us w];
    try (constructor; simpl; assumption).
  - (* create *)
    constructor; simpl.
    + intros j Hj; apply has_row_iff; rewrite map_app, in_app_iff.
      apply in_arm in Hj; destruct Hj as [[Hj _]| ->]; [auto|].
      right; left; reflexivity.
    + intros r Hr Hst Hwhen; apply in_app_iff in Hr;
        destruct Hr as [Hr|[<-|[]]].
      * rewrite (pending_arm_other rid); [auto|].
        intros Heq; apply job_name_inj in Heq.
        exact (select_by_id_none _ _ _ Hfresh Hr Heq).
      * apply pending_arm_same.
  - (* snooze *)
    destruct (select_by_id_some _ _ _ Hsel) as [Hrem Hid].
    constructor; simpl.
    + intros j Hj; apply has_row_iff.
      rewrite map_id_update_where_id by reflexivity.
      apply in_arm in Hj; destruct Hj as [[Hj _]| ->]; [auto|].
      simpl; rewrite <- Hid; apply in_map; exact Hrem.
    + intros r' Hr' Hst Hwhen; apply update_where_id_cases in Hr'.
      destruct Hr' as (r & Hr & [[Heq ->]|[Hne ->]]).
      * simpl; rewrite Heq; apply pending_arm_same.
      * rewrite (pending_arm_other rid); [auto|].
        intros Heq; apply job_name_inj in Heq; contradiction.
  - (* snooze, the date refused *)
    constructor; simpl.
    + intros j Hj; apply has_row_iff.
      rewrite map_id_update_where_id by reflexivity; auto.
    + intros r' Hr' Hst Hwhen; apply update_where_id_cases in Hr'.
      destruct Hr' as (r & Hr & [[Heq ->]|[Hne ->]]); [|auto].
      simpl in Hwhen; congruence.
  - (* cancel *)
    constructor; simpl.
    + intros j Hj; apply has_row_iff.
      rewrite map_id_update_where_id by reflexivity.
      apply in_drop_job in Hj; destruct Hj; auto.
    + intros r' Hr' Hst Hwhen; apply update_where_id_cases in Hr'.
      destruct Hr' as (r & Hr & [[Heq ->]|[Hne ->]]); [discriminate|].
      rewrite pending_drop_other; [auto|].
      intros Heq; apply job_name_inj in Heq; contradiction.
  - (* delete *)
    constructor; simpl.
    + intros j Hj; apply in_drop_job in Hj; destruct Hj as [Hj Hne].
      destruct (Hrows j Hj) as (r & Hr & Hid).
      exists r; split; [|exact Hid].
      apply filter_In; split; [exact Hr|].
      apply negb_true_iff, String.eqb_neq; intros Heq.
      apply Hne; rewrite (Hname j Hj); congruence.
    + intros r Hr Hst Hwhen; apply filter_In in Hr; destruct Hr as [Hr Hne].
      apply negb_true_iff, String.eqb_neq in Hne.
      rewrite pending_drop_other; [auto|].
      intros Heq; apply job_name_inj in Heq; contradiction.
  - (* expiry, reminder gone *)
    simpl in Hen; constructor; simpl.
    + intros k Hk; apply in_drop_job in Hk; destruct Hk; auto.
    + intros r Hr Hst Hwhen; rewrite pending_drop_other; [auto|].
      rewrite (Hname j Hen); intros Heq; apply job_name_inj in Heq.
      exact (select_by_id_none _ _ _ Hsel Hr Heq).
  - (* expiry, reminder found *)
    simpl in Hen.
    destruct (select_by_id_some _ _ _ Hsel) as [Hrem Hid].
    assert (Hjname : job_id j = job_name (id rem))
      by (rewrite (Hname j Hen); congruence).
    rewrite Hjname; constructor; simpl.
    + intros k Hk; apply has_row_iff; rewrite map_id_rows_after_fire.
      apply jobs_after_fire_cases in Hk; destruct Hk as [Hk|(Ha & _ & _)].
      * apply in_drop_job in Hk; destruct Hk; auto.
      * rewrite Ha; apply in_map; exact Hrem.
    + intros r' Hr' Hst Hwhen.
      pose proof Hr' as Hcases; apply rows_after_fire_cases in Hcases.
      destruct Hcases as (r & Hr & [[Hne ->]|(_ & Heq & Hst')]).
      * rewrite pending_jobs_after_fire_other; [auto|].
        intros Heq; apply job_name_inj in Heq; contradiction.
      * rewrite Heq; unfold jobs_after_fire.
        destruct (rearmed rem (users w)) as [i|] eqn:Hre; [|congruence].
        rewrite (rows_after_fire_when _ _ _ _ _ Hre Hr' Heq) in Hwhen.
        rewrite Hwhen; apply (pending_arm_same (id rem)).
Qed.

Lemma reachable_synchronised w : reachable w -> synchronised w.
Proof.
  induction 1 as [|q w Hreach IH Hen].
  - apply synchronised_initial.
  - rewrite <- (world_eta (fst (perform q w))).
    eapply change_synchronised;
      [apply reachable_consistent | | | apply perform_change]; eassumption.
Qed.

(** X1.  In every reachable world a reminder that is scheduled for a date
    (a time within the years 1 to 9999) has exactly one pending timer, a
    reminder whose id has a pending timer is scheduled, a reminder that is
    fired or cancelled has none, and every pending timer is named after a
    reminder that is in the table and scheduled: as long as requests and
    expiries do not overlap, the notifier never meets a timer whose reminder
    is gone. *)
Theorem timers_match_scheduled_reminders w :
  reachable w ->
  (forall r, In r (reminders w) -> status r = "scheduled" ->
     -62135596800 <= when_ts r <= 253402300799 ->
     pending (job_name (id r)) (jobs w) = 1%nat) /\
  (forall r, In r (reminders w) ->
     pending (job_name (id r)) (jobs w) = 1%nat -> status r = "scheduled") /\
  (forall r, In r (reminders w) -> status r <> "scheduled" ->
     pending (job_name (id r)) (jobs w) = 0%nat) /\
  (forall j, In j (jobs w) ->
     exists r, select_by_id (args j) (reminders w) = Some r /\
               status r = "scheduled" /\ job_id j = job_name (id r)).
Proof.
  intros Hreach.
  destruct (reachable_consistent _ Hreach) as [Hval Hname Hsched Hone Huniq].
  destruct (reachable_synchronised _ Hreach) as [Hrows Htimers].
  assert (Hback : forall r, In r (reminders w) ->
            pending (job_name (id r)) (jobs w) = 1%nat ->
            status r = "scheduled").
  { intros r Hr Hp.
    destruct (find_job_pending _ _ Hp) as (j & _ & Hj & Hjid).
    apply (Hsched j r Hj Hr).
    apply job_name_inj; rewrite <- Hjid; apply Hname; exact Hj. }
  split; [|split; [|split]].
  - intros r Hr Hst Hwhen; apply Htimers; [exact Hr | exact Hst|].
    apply in_datetime_range_iff; exact Hwhen.
  - exact Hback.
  - intros r Hr Hst.
    pose proof (Hone (job_name (id r))) as Hle.
    destruct (pending (job_name (id r)) (jobs w)) as [|[|n]] eqn:E;
      [reflexivity | | lia].
    exfalso; apply Hst, Hback; assumption.
  - intros j Hj; destruct (Hrows j Hj) as (r0 & Hr0 & Hid0).
    destruct (select_by_id (args j) (reminders w)) as [r|] eqn:E.
    + destruct (select_by_id_some _ _ _ E) as [Hr Hid].
      exists r; split; [reflexivity|]; split; [eauto|].
      rewrite (Hname j Hj); congruence.
    + exfalso; exact (select_by_id_none _ _ _ E Hr0 Hid0).
Qed.

Lemma timers_match_scheduled_reminders_witness :
  reachable standup_fired /\
  jobs standup_fired
    = [mk_job (job_name "r1") (mk_datetime 87460 None) "r1"] /\
  pending (job_name "r1") (jobs standup_fired) = 1%nat /\
  (forall j, In j (jobs standup_fired) ->
     exists r, select_by_id (args j) (reminders standup_fired) = Some r /\
               status r = "scheduled" /\ job_id j = job_name (id r)).
Proof.
  split; [exact reachable_standup_fired|].
  split; [reflexivity|].
  destruct (timers_match_scheduled_reminders standup_fired
              reachable_standup_fired) as (Hone & _ & _ & Hjobs).
  split; [|exact Hjobs].
  apply (Hone (set_when_scheduled 87460 (new_row 0 1000 "r1" standup alice)));
    [vm_compute; auto | reflexivity | split; intros H; discriminate H].
Defined.

(** ** Creating a reminder *)




(** X3.  [create_reminder] with an id that a row already has raises the
    [IntegrityError] of the INSERT and changes nothing: the row that has
    the id keeps its owner, its time and its timer, and nothing is logged. *)
Theorem create_reminder_keeps_existing_id tz now rid p u w r :
  select_by_id rid (reminders w) = Some r ->
  create_reminder tz now rid p u w = (w, Raised IntegrityError).
Proof. apply create_reminder_clash. Qed.

Lemma create_reminder_keeps_existing_id_witness :
  select_by_id "r1" (reminders with_standup)
    = Some (new_row 0 1000 "r1" standup alice) /\
  create_reminder 0 1100 "r1" dentist bob with_standup
    = (with_standup, Raised IntegrityError).
Proof.
  assert (Hsel : select_by_id "r1" (reminders with_standup)
                 = Some (new_row 0 1000 "r1" standup alice)) by reflexivity.
  split; [exact Hsel|].
  exact (create_reminder_keeps_existing_id 0 1100 "r1" dentist bob
           with_standup _ Hsel).
Defined.

(** ** Unknown ids *)

Lemma absent_reminder_rejected rid u w :
  absent rid (reminders w) ->
  (forall now minutes,
     snooze_reminder now rid minutes u w
       = (w, Raised (HTTPException 404 "Not found"))) /\
  cancel_reminder rid u w
    = (w, Raised (HTTPException 404 "Reminder not found")) /\
  delete_reminder rid u w
    = (w, Raised (HTTPException 404 "Reminder not found")).
Proof.
  intros Habs; apply absent_select in Habs.
  assert (Hno : not_owned (select_by_id rid (reminders w)) u = true)
    by (rewrite Habs; reflexivity).
  split; [intros now minutes; apply snooze_reminder_rejected; exact Hno|].
  split; [apply cancel_reminder_rejected | apply delete_reminder_rejected];
    exact Hno.
Qed.

(** X4.  Snooze, cancel and delete on an id that no row has raise the
    HTTP error 404 and leave the whole world as it was: no statement is
    committed, no timer is touched, nothing is logged. *)
Theorem unknown_reminder_is_not_found rid u w :
  absent rid (reminders w) ->
  (forall now minutes,
     snooze_reminder now rid minutes u w
       = (w, Raised (HTTPException 404 "Not found"))) /\
  cancel_reminder rid u w
    = (w, Raised (HTTPException 404 "Reminder not found")) /\
  delete_reminder rid u w
    = (w, Raised (HTTPException 404 "Reminder not found")).
Proof. apply absent_reminder_rejected. Qed.

Lemma unknown_reminder_is_not_found_witness :
  absent "r9" (reminders with_standup) /\
  cancel_reminder "r9" alice with_standup
    = (with_standup, Raised (HTTPException 404 "Reminder not found")).
Proof.
  assert (Habs : absent "r9" (reminders with_standup)).
  { intros r [<-|[]]; vm_compute; discriminate. }
  split; [exact Habs|].
  exact (proj1 (proj2 (unknown_reminder_is_not_found "r9" alice
                         with_standup Habs))).
Defined.

(** ** Deleting a reminder *)

Lemma select_by_id_deleted rid t :
  select_by_id rid (filter (fun r => negb (id r =? rid)%string) t) = None.
Proof.
  apply absent_select; intros r Hr.
  apply filter_In in Hr; destruct Hr as [_ Hne].
  apply negb_true_iff, String.eqb_neq in Hne; exact Hne.
Qed.


(** X5.  When the caller owns the reminder, whatever its status,
    [delete_reminder] returns normally; afterwards no row has the id, every
    row of another id is still there and no row has appeared, the id has no
    pending timer and timers of other ids are as before, and no list
    returned by [get_reminders] has an entry of that id.  Snooze, cancel and
    a second delete of the id then raise 404 and change nothing. *)
Theorem delete_reminder_removes_reminder_and_timer rid u w rem :
  select_by_id rid (reminders w) = Some rem ->
  user_id rem = uid u ->
  snd (delete_reminder rid u w) = Returned (rid, "deleted") /\
  absent rid (reminders (fst (delete_reminder rid u w))) /\
  (forall r, In r (reminders (fst (delete_reminder rid u w))) <->
             In r (reminders w) /\ id r <> rid) /\
  users (fst (delete_reminder rid u w)) = users w /\
  pending (job_name rid) (jobs (fst (delete_reminder rid u w))) = 0%nat /\
  (forall jid, jid <> job_name rid ->
     pending jid (jobs (fst (delete_reminder rid u w)))
       = pending jid (jobs w)) /\
  (forall u' ls l,
     snd (get_reminders u' (fst (delete_reminder rid u w))) = Returned ls ->
     In l ls -> l_id l <> rid) /\
  (forall u' now minutes,
     snooze_reminder now rid minutes u' (fst (delete_reminder rid u w))
       = (fst (delete_reminder rid u w),
          Raised (HTTPException 404 "Not found"))) /\
  (forall u',
     cancel_reminder rid u' (fst (delete_reminder rid u w))
       = (fst (delete_reminder rid u w),
          Raised (HTTPException 404 "Reminder not found"))) /\
  (forall u',
     delete_reminder rid u' (fst (delete_reminder rid u w))
       = (fst (delete_reminder rid u w),
          Raised (HTTPException 404 "Reminder not found"))).
Proof.
  intros Hsel Hown.
  pose proof (not_owned_false rem u rid _ Hsel Hown) as Hok.
  rewrite (delete_reminder_owned rid u w Hok); simpl fst; simpl snd.
  set (w' := mk_world _ _ _ _).
  assert (Habs : absent rid (reminders w')).
  { apply absent_select; apply select_by_id_deleted. }
  split; [reflexivity|].
  split; [exact Habs|].
  split.
  { intros r; subst w'; cbn [reminders]; rewrite filter_In.
    rewrite negb_true_iff, String.eqb_neq; tauto. }
  split; [reflexivity|].
  split; [apply pending_drop_same|].
  split; [intros jid Hne; apply pending_drop_other; exact Hne|].
  split.
  { intros u' ls l Hls Hl; injection Hls as <-.
    apply in_map_iff in Hl; destruct Hl as (r & <- & Hr).
    apply filter_In in Hr; destruct Hr as [Hr _].
    exact (Habs r Hr). }
  split; [|split]; intros u'; intros;
    apply (absent_reminder_rejected rid u' w' Habs).
Qed.

Lemma delete_reminder_removes_reminder_and_timer_witness :
  select_by_id "r1" (reminders standup_fired)
    = Some (set_when_scheduled 87460 (new_row 0 1000 "r1" standup alice)) /\
  user_id (set_when_scheduled 87460 (new_row 0 1000 "r1" standup alice))
    = uid alice /\
  snd (delete_reminder "r1" alice standup_fired) = Returned ("r1", "deleted") /\
  pending (job_name "r1") (jobs (fst (delete_reminder "r1" alice standup_fired)))
    = 0%nat /\
  delete_reminder "r1" alice (fst (delete_reminder "r1" alice standup_fired))
    = (fst (delete_reminder "r1" alice standup_fired),
       Raised (HTTPException 404 "Reminder not found")).
Proof.
  assert (Hsel : select_by_id "r1" (reminders standup_fired)
                 = Some (set_when_scheduled 87460
                           (new_row 0 1000 "r1" standup alice)))
    by reflexivity.
  assert (Hown : user_id (set_when_scheduled 87460
                            (new_row 0 1000 "r1" standup alice)) = uid alice)
    by reflexivity.
  destruct (delete_reminder_removes_reminder_and_timer "r1" alice
              standup_fired _ Hsel Hown)
    as (Hret & _ & _ & _ & Hnone & _ & _ & _ & _ & Hagain).
  repeat (split; [assumption|]).
  exact (Hagain alice).
Defined.

(** ** Firing a reminder that does not repeat *)

Lemma filter_nothing {A} (p : A -> bool) l :
  (forall x, In x l -> p x = false) -> filter p l = [].
Proof.
  induction l as [|a l IH]; simpl; intros H; [reflexivity|].
  rewrite (H a) by auto; apply IH; auto.
Qed.

Lemma filter_one_id t r :
  NoDup (map id t) -> In r t ->
  filter (fun x => id x =? id r)%string t = [r].
Proof.
  induction t as [|a t IH]; simpl; intros H Hr; [contradiction|].
  inversion H as [|x l Hnot Hrest]; subst.
  destruct Hr as [->|Hr].
  - rewrite String.eqb_refl; f_equal.
    apply filter_nothing; intros x Hx.
    apply String.eqb_neq; intros Heq.
    apply Hnot; rewrite <- Heq; apply in_map; exact Hx.
  - destruct (id a =? id r)%string eqn:E; [|auto].
    apply String.eqb_eq in E; exfalso; apply Hnot.
    rewrite E; apply in_map; exact Hr.
Qed.

Lemma filter_map_comm {A B} (f : A -> B) (p : B -> bool) l :
  filter p (map f l) = map f (filter (fun x => p (f x)) l).
Proof.
  induction l as [|a l IH]; simpl; [reflexivity|].
  destruct (p (f a)); simpl; rewrite IH; reflexivity.
Qed.

Lemma filter_filter_comm {A} (p q : A -> bool) l :
  filter p (filter q l) = filter q (filter p l).
Proof.
  induction l as [|a l IH]; simpl; [reflexivity|].
  destruct (p a) eqn:Ep, (q a) eqn:Eq; simpl; rewrite ?Ep, ?Eq, IH; reflexivity.
Qed.

(** The world the notifier leaves on a reminder that does not repeat. *)
Lemma notifier_notify_once env rid w rem :
  select_by_id rid (reminders w) = Some rem ->
  recurring rem = None ->
  fst (notifier_notify env rid w) =
  mk_world (update_where_id rid (set_status "fired") (reminders w)) (users w)
    (jobs w) (log w ++ fire_log env rem (users w)).
Proof.
  intros Hsel Hrec; rewrite (notifier_notify_found env _ _ _ Hsel).
  destruct (select_by_id_some _ _ _ Hsel) as [_ <-].
  unfold rows_after_fire, jobs_after_fire, rearmed; rewrite Hrec.
  destruct (composes rem (users w)); reflexivity.
Qed.

(** X6.  Let a pending timer expire in a reachable world, for a reminder
    whose repeat interval is NULL or zero.  The expiry returns normally;
    the reminder keeps all its columns but the status, which is fired; its
    id has no pending timer left; and a poll by the owner, with [since]
    absent, zero or before the time the reminder was due, reports the
    reminder exactly once, with that time. *)
Theorem expired_reminder_is_reported_once env j w rem u since :
  reachable w ->
  In j (jobs w) ->
  select_by_id (args j) (reminders w) = Some rem ->
  repeat_interval rem = None \/ repeat_interval rem = Some 0 ->
  user_id rem = uid u ->
  (forall s, since = Some s -> s <> 0 -> s < when_ts rem) ->
  snd (run_job env j w) = Returned tt /\
  select_by_id (id rem) (reminders (fst (run_job env j w)))
    = Some (set_status "fired" rem) /\
  pending (job_name (id rem)) (jobs (fst (run_job env j w))) = 0%nat /\
  exists ns,
    poll_notifications since u (fst (run_job env j w))
      = (fst (run_job env j w), Returned ns) /\
    filter (fun n => n_id n =? id rem)%string ns
      = [mk_notification (id rem) (title rem) (body rem) (when_ts rem)].
Proof.
  intros Hreach Hj Hsel Hri Hown Hsince.
  pose proof (recurring_none _ Hri) as Hrec.
  destruct (reachable_consistent _ Hreach) as [Hval Hname Hsched Hone Huniq].
  destruct (select_by_id_some _ _ _ Hsel) as [Hrem Hid].
  rewrite run_job_eq; simpl fst; simpl snd.
  rewrite (notifier_notify_once env (args j) _ rem) by assumption.
  cbn [fst reminders jobs].
  split; [reflexivity|].
  split.
  { rewrite select_update_where_id by reflexivity.
    rewrite Hid, Hsel; simpl; rewrite <- Hid, String.eqb_refl; reflexivity. }
  split.
  { rewrite (Hname j Hj), <- Hid; apply pending_drop_same. }
  rewrite poll_notifications_eq; cbn [reminders].
  eexists; split; [reflexivity|].
  rewrite (filter_map_comm to_notification); cbn [n_id to_notification].
  rewrite filter_filter_comm.
  assert (Hin : In (set_status "fired" rem)
                  (update_where_id (args j) (set_status "fired") (reminders w))).
  { unfold update_where_id; apply in_map_iff; exists rem.
    rewrite Hid, String.eqb_refl; auto. }
  assert (Hone' : filter (fun x => id x =? id rem)%string
                    (update_where_id (args j) (set_status "fired") (reminders w))
                  = [set_status "fired" rem]).
  { apply (filter_one_id _ (set_status "fired" rem)); [|exact Hin].
    rewrite map_id_update_where_id by reflexivity; exact Huniq. }
  rewrite Hone'; simpl.
  unfold to_report; cbn [status user_id when_ts set_status].
  rewrite Hown, Z.eqb_refl; simpl.
  destruct since as [s|]; [|reflexivity].
  destruct (s =? 0) eqn:E; [reflexivity|]; simpl.
  apply Z.eqb_neq in E.
  rewrite (proj2 (Z.ltb_lt _ _) (Hsince s eq_refl E)); reflexivity.
Qed.

Lemma expired_reminder_is_reported_once_witness :
  reachable (fst (perform (Create 0 1000 "r1" dentist alice) registered)) /\
  exists ns,
    poll_notifications (Some 1000) alice dentist_fired
      = (dentist_fired, Returned ns) /\
    filter (fun n => n_id n =? "r1")%string ns
      = [mk_notification "r1" "Dentist" None 1500].
Proof.
  assert (Hreach : reachable (fst (perform (Create 0 1000 "r1" dentist alice)
                                     registered))).
  { apply reachable_step; [apply reachable_registered | exact I]. }
  split; [exact Hreach|].
  refine (proj2 (proj2 (proj2
    (expired_reminder_is_reported_once no_smtp
       (mk_job (job_name "r1") (p_when dentist) "r1") _
       (new_row 0 1000 "r1" dentist alice) alice (Some 1000)
       Hreach _ _ _ _ _)))).
  - vm_compute; auto.
  - reflexivity.
  - left; reflexivity.
  - reflexivity.
  - intros s Hs _; injection Hs as <-; reflexivity.
Defined.

(** ** Repeat intervals that are not positive *)

(** X7.  The notifier takes any repeat interval other than NULL and zero
    as a recurrence.  With a negative interval [i], the time the reminder
    was due being not after year 9999 and the earlier time [when_ts + i] not
    before year 1, the reminder it fires is scheduled again for
    [when_ts + i], a time before the one it was due at, and the timers of
    the id are replaced by one, whose run date is the naive datetime
    showing that earlier time in UTC.  With the interval NULL or zero the
    reminder stays fired and the job store is left alone. *)
Theorem repeat_interval_sign_is_not_checked env rid w rem :
  select_by_id rid (reminders w) = Some rem ->
  (forall i, repeat_interval rem = Some i -> i < 0 ->
     when_ts rem <= 253402300799 ->
     -62135596800 <= when_ts rem + i ->
     select_by_id rid (reminders (fst (notifier_notify env rid w)))
       = Some (mk_reminder rid (user_id rem) (title rem) (body rem)
                 (when_ts rem + i) (created_at rem) "scheduled"
                 (snooze_until rem) (recurrence rem) (Some i) (category rem)
                 (tags rem)) /\
     when_ts rem + i < when_ts rem /\
     jobs (fst (notifier_notify env rid w))
       = drop_job (job_name rid) (jobs w)
         ++ [mk_job (job_name rid) (mk_datetime (when_ts rem + i) None) rid] /\
     pending (job_name rid) (jobs (fst (notifier_notify env rid w))) = 1%nat /\
     (forall j, In j (jobs (fst (notifier_notify env rid w))) ->
                job_id j = job_name rid ->
                run_date j = mk_datetime (when_ts rem + i) None)) /\
  (repeat_interval rem = None \/ repeat_interval rem = Some 0 ->
   select_by_id rid (reminders (fst (notifier_notify env rid w)))
     = Some (mk_reminder rid (user_id rem) (title rem) (body rem)
               (when_ts rem) (created_at rem) "fired" (snooze_until rem)
               (recurrence rem) (repeat_interval rem) (category rem)
               (tags rem)) /\
   jobs (fst (notifier_notify env rid w)) = jobs w).
Proof.
  intros Hsel; destruct (select_by_id_some _ _ _ Hsel) as [_ Hid]; split.
  - intros i Hri Hneg Hhi Hlo.
    assert (Hnz : i <> 0) by lia.
    pose proof (recurring_nonzero _ _ Hri Hnz) as Hrec.
    assert (Hnow : in_datetime_range (when_ts rem) = true)
      by (apply in_datetime_range_iff; lia).
    assert (Hnext : in_datetime_range (when_ts rem + i) = true)
      by (apply in_datetime_range_iff; lia).
    rewrite (notifier_notify_recurring env rid w rem i Hsel Hrec Hnow Hnext).
    cbn [fst reminders jobs].
    split.
    { subst rid; rewrite (select_rows_after_fire rem (users w) _ i Hsel)
        by (rewrite rearmed_in_range; assumption).
      unfold set_when_scheduled; rewrite Hri; reflexivity. }
    split; [lia|].
    split; [reflexivity|].
    split; [apply pending_arm_same|].
    intros j Hj Hjid; rewrite (arm_only _ _ _ _ Hj Hjid); reflexivity.
  - intros Hri; pose proof (recurring_none _ Hri) as Hrec.
    rewrite (notifier_notify_once env rid w rem Hsel Hrec); simpl.
    split; [|reflexivity].
    rewrite select_update_where_id, Hsel by reflexivity; simpl.
    rewrite Hid, String.eqb_refl; unfold set_status; rewrite Hid.
    reflexivity.
Qed.

Lemma repeat_interval_sign_is_not_checked_witness :
  select_by_id "r1" (reminders (with_standup_every (-60)))
    = Some (new_row 0 1000 "r1" (standup_every (-60)) alice) /\
  option_map when_ts
    (select_by_id "r1"
       (reminders
          (fst (notifier_notify no_smtp "r1" (with_standup_every (-60))))))
    = Some 1000 /\
  option_map status
    (select_by_id "r1"
       (reminders
          (fst (notifier_notify no_smtp "r1" (with_standup_every (-60))))))
    = Some "scheduled" /\
  jobs (fst (notifier_notify no_smtp "r1" (with_standup_every (-60))))
    = [mk_job (job_name "r1") (mk_datetime 1000 None) "r1"].
Proof.
  assert (Hsel : select_by_id "r1" (reminders (with_standup_every (-60)))
                 = Some (new_row 0 1000 "r1" (standup_every (-60)) alice))
    by reflexivity.
  split; [exact Hsel|].
  destruct (proj1 (repeat_interval_sign_is_not_checked no_smtp "r1" _ _ Hsel)
              (-60)) as (Hrow & _ & Hjobs & _);
    try reflexivity; try (intros H; discriminate H).
  split; [rewrite Hrow; reflexivity|].
  split; [rewrite Hrow; reflexivity|].
  rewrite Hjobs; reflexivity.
Defined.

(** ** Expiry and reminders that are not scheduled *)

Lemma select_rows_after_fire_other rem us t rid :
  rid <> id rem ->
  select_by_id rid (rows_after_fire rem us t) = select_by_id rid t.
Proof.
  intros Hne; unfold rows_after_fire.
  assert (Hkeep : forall f, (forall r, id (f r) = id r) -> forall t0,
            select_by_id rid (update_where_id (id rem) f t0)
            = select_by_id rid t0).
  { intros f Hf t0; rewrite select_update_where_id by exact Hf.
    destruct (select_by_id rid t0) as [r|] eqn:E; [|reflexivity]; simpl.
    destruct (select_by_id_some _ _ _ E) as [_ Hr].
    destruct (id r =? id rem)%string eqn:E'; [|reflexivity].
    apply String.eqb_eq in E'; congruence. }
  destruct (rearmed rem us); rewrite !Hkeep by reflexivity; reflexivity.
Qed.

(** X8.  In a reachable world the expiry of any pending timer leaves a
    reminder that is not scheduled exactly as it is.  So a reminder that
    its owner has cancelled is not fired by any timer: after the cancel,
    whichever pending timer expires, the reminder is found unchanged, with
    status cancelled. *)
Theorem expiry_spares_unscheduled_reminders env j w rid rem :
  reachable w ->
  In j (jobs w) ->
  select_by_id rid (reminders w) = Some rem ->
  (status rem <> "scheduled" ->
   select_by_id rid (reminders (fst (run_job env j w))) = Some rem) /\
  (forall u k,
     user_id rem = uid u ->
     In k (jobs (fst (cancel_reminder rid u w))) ->
     select_by_id rid
       (reminders (fst (run_job env k (fst (cancel_reminder rid u w)))))
       = Some (set_status "cancelled" rem)).
Proof.
  assert (Hspare : forall w0 k r0,
            reachable w0 -> In k (jobs w0) ->
            select_by_id rid (reminders w0) = Some r0 ->
            status r0 <> "scheduled" ->
            select_by_id rid (reminders (fst (run_job env k w0))) = Some r0).
  { intros w0 k r0 Hreach Hk Hsel Hst.
    destruct (reachable_consistent _ Hreach) as [Hval Hname Hsched Hone Huniq].
    destruct (select_by_id_some _ _ _ Hsel) as [Hr0 Hid0].
    assert (Hne : rid <> args k).
    { intros Heq; apply Hst, (Hsched k r0 Hk Hr0); congruence. }
    rewrite run_job_eq; simpl fst.
    destruct (select_by_id (args k) (reminders w0)) as [rk|] eqn:E.
    - rewrite (notifier_notify_found env _ _ rk) by exact E; simpl.
      destruct (select_by_id_some _ _ _ E) as [_ Hidk].
      rewrite select_rows_after_fire_other by congruence; exact Hsel.
    - rewrite notifier_notify_missing by exact E; exact Hsel. }
  intros Hreach Hj Hsel; split.
  - intros Hst; apply Hspare; assumption.
  - intros u k Hown Hk.
    destruct (select_by_id_some _ _ _ Hsel) as [_ Hid].
    assert (Hsel1 : select_by_id rid (reminders (fst (cancel_reminder rid u w)))
                    = Some (set_status "cancelled" rem)).
    { rewrite (cancel_reminder_owned rid u w
                 (not_owned_false rem u rid _ Hsel Hown)); simpl.
      rewrite select_update_where_id, Hsel by reflexivity; simpl.
      rewrite Hid, String.eqb_refl; reflexivity. }
    apply Hspare; [|exact Hk|exact Hsel1|discriminate].
    assert (Hstep : fst (cancel_reminder rid u w)
                    = fst (perform (Cancel rid u) w)).
    { unfold perform, bind; destruct (cancel_reminder rid u w) as [w1 [a|e]];
        reflexivity. }
    rewrite Hstep; apply reachable_step; [exact Hreach | exact I].
Qed.

Lemma expiry_spares_unscheduled_reminders_witness :
  reachable two_owners /\
  In (mk_job (job_name "r2") (p_when dentist) "r2") (jobs two_owners) /\
  select_by_id "r1" (reminders two_owners)
    = Some (new_row 0 1000 "r1" dentist alice) /\
  user_id (new_row 0 1000 "r1" dentist alice) = uid alice /\
  In (mk_job (job_name "r2") (p_when dentist) "r2")
     (jobs (fst (cancel_reminder "r1" alice two_owners))) /\
  select_by_id "r1"
    (reminders
       (fst (run_job no_smtp (mk_job (job_name "r2") (p_when dentist) "r2")
               (fst (cancel_reminder "r1" alice two_owners)))))
    = Some (set_status "cancelled" (new_row 0 1000 "r1" dentist alice)).
Proof.
  assert (Hj : In (mk_job (job_name "r2") (p_when dentist) "r2")
                 (jobs two_owners)) by (vm_compute; auto).
  assert (Hsel : select_by_id "r1" (reminders two_owners)
                 = Some (new_row 0 1000 "r1" dentist alice)) by reflexivity.
  assert (Hown : user_id (new_row 0 1000 "r1" dentist alice) = uid alice)
    by reflexivity.
  assert (Hk : In (mk_job (job_name "r2") (p_when dentist) "r2")
                 (jobs (fst (cancel_reminder "r1" alice two_owners))))
    by (vm_compute; auto).
  split; [exact reachable_two_owners|].
  repeat (split; [assumption|]).
  exact (proj2 (expiry_spares_unscheduled_reminders no_smtp _ two_owners "r1" _
                  reachable_two_owners Hj Hsel) alice _ Hown Hk).
Defined.

(** ** Requests and the reminders of other users *)

Lemma in_update_where_id_other rid f t r :
  In r t -> id r <> rid -> In r (update_where_id rid f t).
Proof.
  intros Hr Hne; unfold update_where_id; apply in_map_iff; exists r.
  apply String.eqb_neq in Hne; rewrite Hne; auto.
Qed.

(** X9.  In a reachable world a create, snooze, cancel or delete request
    made in the name of one user, whatever it asks for, leaves every
    reminder owned by another user in the table as it is, together with the
    timer of that reminder. *)
Theorem requests_leave_other_users_alone q u w r :
  reachable w ->
  requester q = Some u ->
  In r (reminders w) ->
  user_id r <> uid u ->
  In r (reminders (fst (perform q w))) /\
  pending (job_name (id r)) (jobs (fst (perform q w)))
    = pending (job_name (id r)) (jobs w) /\
  (forall j, In j (jobs w) -> job_id j = job_name (id r) ->
             In j (jobs (fst (perform q w)))).
Proof.
  intros Hreach Hreq Hr Hother.
  destruct (reachable_consistent _ Hreach) as [Hval Hname Hsched Hone Huniq].
  assert (Hdiff : forall rid rem,
            select_by_id rid (reminders w) = Some rem ->
            user_id rem = uid u -> id r <> rid).
  { intros rid rem Hsel Hown Heq.
    destruct (select_by_id_some _ _ _ Hsel) as [Hrem Hid].
    apply Hother; rewrite <- Hown; f_equal.
    apply (unique_id_row _ _ _ Huniq Hr Hrem); congruence. }
  assert (Hnames : forall rid, id r <> rid -> job_name (id r) <> job_name rid).
  { intros rid Hne Heq; apply Hne, job_name_inj, Heq. }
  pose proof (perform_change q w) as Hch.
  set (t' := reminders (fst (perform q w))) in *.
  set (js' := jobs (fst (perform q w))) in *.
  clearbody t' js'.
  destruct Hch as [tz now rid p u0 w r0 Hsel|tz now rid p u0 w Hfresh
                  |now rid m u0 w Hno|now rid m u0 w rem Hsel Hown Hin
                  |now rid m u0 w rem Hsel Hown Hout
                  |rid u0 w Hno|rid u0 w rem Hsel Hown
                  |rid u0 w Hno|rid u0 w rem Hsel Hown
                  |env j w Hsel|env j w rem Hsel|us w];
    simpl in Hreq; try discriminate; injection Hreq as ->; auto.
  - (* create *)
    assert (Hne : id r <> rid)
      by (eapply select_by_id_none; eassumption).
    split; [apply in_or_app; auto|].
    split; [apply (pending_arm_other rid), Hnames, Hne|].
    intros j Hj Hjid; apply in_arm; left; split; [exact Hj|].
    rewrite Hjid; apply Hnames, Hne.
  - (* snooze *)
    assert (Hne : id r <> rid) by eauto.
    split; [apply in_update_where_id_other; assumption|].
    split; [apply (pending_arm_other rid), Hnames, Hne|].
    intros j Hj Hjid; apply in_arm; left; split; [exact Hj|].
    rewrite Hjid; apply Hnames, Hne.
  - (* snooze, the date refused *)
    assert (Hne : id r <> rid) by eauto.
    split; [apply in_update_where_id_other; assumption | auto].
  - (* cancel *)
    assert (Hne : id r <> rid) by eauto.
    split; [apply in_update_where_id_other; assumption|].
    split; [apply pending_drop_other, Hnames, Hne|].
    intros j Hj Hjid; apply in_drop_job; split; [exact Hj|].
    rewrite Hjid; apply Hnames, Hne.
  - (* delete *)
    assert (Hne : id r <> rid) by eauto.
    split.
    { apply filter_In; split; [exact Hr|].
      apply negb_true_iff, String.eqb_neq; exact Hne. }
    split; [apply pending_drop_other, Hnames, Hne|].
    intros j Hj Hjid; apply in_drop_job; split; [exact Hj|].
    rewrite Hjid; apply Hnames, Hne.
Qed.

Lemma requests_leave_other_users_alone_witness :
  reachable two_owners /\
  requester (Delete "r1" alice) = Some alice /\
  In (new_row 0 1000 "r2" dentist bob) (reminders two_owners) /\
  user_id (new_row 0 1000 "r2" dentist bob) <> uid alice /\
  In (new_row 0 1000 "r2" dentist bob)
     (reminders (fst (perform (Delete "r1" alice) two_owners))).
Proof.
  assert (Hr : In (new_row 0 1000 "r2" dentist bob) (reminders two_owners))
    by (vm_compute; auto).
  assert (Hother : user_id (new_row 0 1000 "r2" dentist bob) <> uid alice)
    by discriminate.
  split; [exact reachable_two_owners|].
  split; [reflexivity|].
  repeat (split; [assumption|]).
  exact (proj1 (requests_leave_other_users_alone (Delete "r1" alice) alice
                  two_owners _ reachable_two_owners eq_refl Hr Hother)).
Defined.

(** ** Snoozing a recurring reminder *)

(** X10.  The notifier counts the next occurrence from the stored target
    time, and snooze overwrites that time.  So after the owner has snoozed
    a reminder that repeats every [i] seconds to a time not before year 1,
    the [S n] expiries that follow, the last of them for a time not after
    year 9999, give it the target times [now + minutes * 60 + k * i] for
    k = 1 .. S n: every later occurrence is counted from the snoozed time,
    not from the time the reminder was first due. *)
Theorem snooze_shifts_later_occurrences env now rid minutes u w rem i n :
  select_by_id rid (reminders w) = Some rem ->
  user_id rem = uid u ->
  repeat_interval rem = Some i ->
  0 < i ->
  -62135596800 <= now + minutes * 60 ->
  now + minutes * 60 + Z.of_nat (S n) * i <= 253402300799 ->
  fire_times env rid (S n) (fst (snooze_reminder now rid minutes u w))
    = map (fun k => now + minutes * 60 + Z.of_nat k * i) (seq 1 (S n)).
Proof.
  intros Hsel Hown Hri Hpos Hlo Hhi.
  destruct (select_by_id_some _ _ _ Hsel) as [_ Hid].
  pose proof (not_owned_false rem u rid _ Hsel Hown) as Hok.
  assert (Hin : in_datetime_range (now + minutes * 60) = true)
    by (apply in_datetime_range_iff; nia).
  rewrite (snooze_reminder_owned now rid minutes u w Hok Hin); simpl fst.
  set (w1 := mk_world _ _ _ _).
  assert (Hsel1 : select_by_id rid (reminders w1)
                  = Some (set_snooze (now + minutes * 60) rem)).
  { subst w1; cbn [reminders].
    rewrite select_update_where_id, Hsel by reflexivity; simpl.
    rewrite Hid, String.eqb_refl; reflexivity. }
  assert (Hone1 : pending (job_name rid) (jobs w1) = 1%nat)
    by apply (pending_arm_same rid).
  assert (Hargs1 : forall j, In j (jobs w1) -> job_id j = job_name rid ->
                             args j = rid).
  { intros j Hj Hjid; subst w1; cbn [jobs] in Hj.
    rewrite (arm_only _ _ _ _ Hj Hjid); reflexivity. }
  exact (proj1 (fire_times_recurring env rid i n Hpos w1 _ Hsel1 Hri
                  Hlo Hhi Hone1 Hargs1)).
Qed.

Lemma snooze_shifts_later_occurrences_witness :
  select_by_id "r1" (reminders with_standup)
    = Some (new_row 0 1000 "r1" standup alice) /\
  user_id (new_row 0 1000 "r1" standup alice) = uid alice /\
  repeat_interval (new_row 0 1000 "r1" standup alice) = Some 86400 /\
  0 < 86400 /\
  -62135596800 <= 1030 + 10 * 60 /\
  1030 + 10 * 60 + Z.of_nat 2 * 86400 <= 253402300799 /\
  fire_times no_smtp "r1" 2 (fst (snooze_reminder 1030 "r1" 10 alice with_standup))
    = [88030; 174430].
Proof.
  assert (Hsel : select_by_id "r1" (reminders with_standup)
                 = Some (new_row 0 1000 "r1" standup alice)) by reflexivity.
  assert (Hown : user_id (new_row 0 1000 "r1" standup alice) = uid alice)
    by reflexivity.
  assert (Hri : repeat_interval (new_row 0 1000 "r1" standup alice)
                = Some 86400) by reflexivity.
  assert (Hpos : 0 < 86400) by reflexivity.
  assert (Hlo : -62135596800 <= 1030 + 10 * 60) by (intros H; discriminate H).
  assert (Hhi : 1030 + 10 * 60 + Z.of_nat 2 * 86400 <= 253402300799)
    by (intros H; discriminate H).
  repeat (split; [assumption|]).
  rewrite (snooze_shifts_later_occurrences no_smtp 1030 "r1" 10 alice
             with_standup _ 86400 1 Hsel Hown Hri Hpos Hlo Hhi).
  reflexivity.
Defined.

(** ** Who gets mail, and when *)

Lemma send_email_log_sessions env m m' ok :
  In (Smtp_session m' ok) (send_email_log env m) ->
  m' = m /\ truthy_str (SMTP_HOST env) = true /\ ok = smtp_delivers env m.
Proof.
  unfold send_email_log.
  destruct (truthy_str (SMTP_HOST env)); simpl;
    [destruct (smtp_delivers env m) eqn:E; simpl|];
    intros H; repeat (destruct H as [H|H]);
    try discriminate; try contradiction;
    injection H as <- <-; auto.
Qed.

Lemma send_email_log_count env m :
  (length (filter is_session (send_email_log env m)) <= 1)%nat.
Proof.
  unfold send_email_log.
  destruct (negb (truthy_str (SMTP_HOST env))); simpl; [lia|].
  destruct (smtp_delivers env m); simpl; lia.
Qed.

Lemma fire_log_sessions env rem us m ok :
  In (Smtp_session m ok) (fire_log env rem us) ->
  exists usr,
    find (fun x => uid x =? user_id rem) us = Some usr /\
    m = notice rem usr /\
    truthy_str (SMTP_HOST env) = true /\ ok = smtp_delivers env m.
Proof.
  unfold fire_log, delivery_log, rearm_log; intros [H|H]; [discriminate|].
  apply in_app_iff in H; destruct H as [H|H].
  - destruct (find (fun x => uid x =? user_id rem) us) as [usr|]; [|destruct H].
    destruct (in_datetime_range (when_ts rem)); [|destruct H].
    exists usr; split; [reflexivity|].
    apply send_email_log_sessions in H; destruct H as (-> & Hh & ->); auto.
  - destruct (rearmed rem us) as [i|]; [|destruct H].
    destruct (in_datetime_range (when_ts rem + i));
      repeat (destruct H as [H|H]); try discriminate; contradiction.
Qed.

Lemma fire_log_count env rem us :
  (length (filter is_session (fire_log env rem us)) <= 1)%nat.
Proof.
  unfold fire_log, delivery_log, rearm_log; cbn [filter is_session].
  rewrite filter_app, length_app.
  assert (H0 : length (filter is_session
                         match rearmed rem us with
                         | Some i =>
                             Committed (UPDATE_when_scheduled
                                          (when_ts rem + i) (id rem))
                             :: (if in_datetime_range (when_ts rem + i)
                                 then [Print (Scheduled (job_name (id rem))
                                                (mk_datetime (when_ts rem + i)
                                                   None))]
                                 else [])
                         | None => []
                         end) = 0%nat).
  { destruct (rearmed rem us) as [i|]; [|reflexivity].
    destruct (in_datetime_range (when_ts rem + i)); reflexivity. }
  rewrite H0.
  destruct (find (fun x => uid x =? user_id rem) us) as [usr|]; simpl; [|lia].
  destruct (in_datetime_range (when_ts rem)); simpl; [|lia].
  pose proof (send_email_log_count env (notice rem usr)); lia.
Qed.

(** X11.  Whatever the request and the world, the events it adds to the log
    hold at most one SMTP session, and a session is opened only by the
    expiry of a timer whose reminder is in the table, when the owner of the
    reminder is a registered user and an SMTP host is configured.  The
    message goes to the owner's address, under the subject made of
    [Reminder: ] and the title, with the text of the reminder and the time
    it was due before any re-arming.  No endpoint sends mail. *)
Theorem mail_is_sent_only_by_expiry q w :
  exists evs,
    log (fst (perform q w)) = log w ++ evs /\
    (length (filter is_session evs) <= 1)%nat /\
    forall m ok,
      In (Smtp_session m ok) evs ->
      exists env j rem usr,
        q = Expire env j /\
        select_by_id (args j) (reminders w) = Some rem /\
        find (fun x => uid x =? user_id rem) (users w) = Some usr /\
        m = mk_message (email usr) ("Reminder: " ++ title rem)%string
              (body rem) (mk_datetime (when_ts rem) None) /\
        truthy_str (SMTP_HOST env) = true /\
        ok = smtp_delivers env m.
Proof.
  assert (Hquiet : forall evs : list event,
            (forall ev, In ev evs -> is_session ev = false) ->
            (length (filter is_session evs) <= 1)%nat /\
            forall m ok, In (Smtp_session m ok) evs ->
              exists env j rem usr,
                q = Expire env j /\
                select_by_id (args j) (reminders w) = Some rem /\
                find (fun x => uid x =? user_id rem) (users w) = Some usr /\
                m = mk_message (email usr) ("Reminder: " ++ title rem)%string
                      (body rem) (mk_datetime (when_ts rem) None) /\
                truthy_str (SMTP_HOST env) = true /\
                ok = smtp_delivers env m).
  { intros evs Hev; split.
    - rewrite (filter_nothing _ _ Hev); simpl; lia.
    - intros m ok Hin; apply Hev in Hin; discriminate. }
  destruct q as [tz now rid p u|now rid m0 u|rid u|rid u|env j|us];
    unfold perform.
  - destruct (select_by_id rid (reminders w)) as [r|] eqn:E; unfold bind.
    + rewrite (create_reminder_clash tz now rid p u w r E); simpl.
      exists []; rewrite app_nil_r; split; [reflexivity|].
      apply Hquiet; intros ev [].
    + rewrite (create_reminder_fresh tz now rid p u w E); simpl.
      eexists; split; [reflexivity|].
      apply Hquiet; intros ev [<-|[<-|[]]]; reflexivity.
  - destruct (not_owned (select_by_id rid (reminders w)) u) eqn:E; unfold bind.
    + rewrite (snooze_reminder_rejected now rid m0 u w E); simpl.
      exists []; rewrite app_nil_r; split; [reflexivity|].
      apply Hquiet; intros ev [].
    + destruct (in_datetime_range (now + m0 * 60)) eqn:R.
      * rewrite (snooze_reminder_owned now rid m0 u w E R); simpl.
        eexists; split; [reflexivity|].
        apply Hquiet; intros ev [<-|[<-|[]]]; reflexivity.
      * rewrite (snooze_reminder_out_of_range now rid m0 u w E R); simpl.
        eexists; split; [reflexivity|].
        apply Hquiet; intros ev [<-|[]]; reflexivity.
  - destruct (not_owned (select_by_id rid (reminders w)) u) eqn:E; unfold bind.
    + rewrite (cancel_reminder_rejected rid u w E); simpl.
      exists []; rewrite app_nil_r; split; [reflexivity|].
      apply Hquiet; intros ev [].
    + rewrite (cancel_reminder_owned rid u w E); simpl.
      eexists; split; [reflexivity|].
      apply Hquiet; intros ev [<-|[]]; reflexivity.
  - destruct (not_owned (select_by_id rid (reminders w)) u) eqn:E; unfold bind.
    + rewrite (delete_reminder_rejected rid u w E); simpl.
      exists []; rewrite app_nil_r; split; [reflexivity|].
      apply Hquiet; intros ev [].
    + rewrite (delete_reminder_owned rid u w E); simpl.
      eexists; split; [reflexivity|].
      apply Hquiet; intros ev [<-|[]]; reflexivity.
  - rewrite run_job_eq; simpl fst.
    destruct (select_by_id (args j) (reminders w)) as [rem|] eqn:E.
    + rewrite (notifier_notify_found env _ _ rem) by exact E; simpl.
      eexists; split; [reflexivity|].
      split; [apply fire_log_count|].
      intros m ok Hin; apply fire_log_sessions in Hin.
      destruct Hin as (usr & Hfind & -> & Hhost & ->).
      exists env, j, rem, usr; repeat split; assumption.
    + rewrite notifier_notify_missing by exact E; simpl.
      eexists; split; [reflexivity|].
      apply Hquiet; intros ev [<-|[]]; reflexivity.
  - simpl; exists []; rewrite app_nil_r; split; [reflexivity|].
    apply Hquiet; intros ev [].
Qed.

(** ** What [send_email] reports *)

(** X12.  [send_email] never raises and touches neither the tables nor the
    timers.  Without an SMTP host (unset or empty) it opens no session,
    prints that it skips the mail and returns [False]; with a host it opens
    one session and returns [True] when the session succeeds, and prints
    the failure and returns [False] when the session raises. *)
Theorem send_email_reports_delivery env m w :
  send_email env m w =
  (mk_world (reminders w) (users w) (jobs w)
     (log w ++
      if truthy_str (SMTP_HOST env)
      then if smtp_delivers env m
           then [Smtp_session m true]
           else [Smtp_session m false; Print SMTP_send_failed]
      else [Print SMTP_not_configured]),
   Returned (truthy_str (SMTP_HOST env) && smtp_delivers env m)) /\
  (SMTP_HOST env = None \/ SMTP_HOST env = Some "" ->
   send_email env m w =
   (mk_world (reminders w) (users w) (jobs w)
      (log w ++ [Print SMTP_not_configured]),
    Returned false)).
Proof.
  assert (Hform : send_email env m w =
    (mk_world (reminders w) (users w) (jobs w)
       (log w ++
        if truthy_str (SMTP_HOST env)
        then if smtp_delivers env m
             then [Smtp_session m true]
             else [Smtp_session m false; Print SMTP_send_failed]
        else [Print SMTP_not_configured]),
     Returned (truthy_str (SMTP_HOST env) && smtp_delivers env m))).
  { unfold send_email.
    destruct (truthy_str (SMTP_HOST env)); simpl; [|reflexivity].
    unfold try_except, bind, smtp_session.
    destruct (smtp_delivers env m); simpl; [reflexivity|].
    unfold print, emit, ret; simpl; rewrite <- app_assoc; reflexivity. }
  split; [exact Hform|].
  intros Hhost; rewrite Hform.
  destruct Hhost as [-> | ->]; reflexivity.
Qed.

Lemma send_email_reports_delivery_witness :
  SMTP_HOST (mk_smtp (Some "") (fun _ => true)) = Some "" /\
  send_email (mk_smtp (Some "") (fun _ => true))
    (notice (new_row 0 1000 "r1" standup alice) alice) with_standup =
  (mk_world (reminders with_standup) (users with_standup) (jobs with_standup)
     (log with_standup ++ [Print SMTP_not_configured]),
   Returned false).
Proof.
  split; [reflexivity|].
  exact (proj2 (send_email_reports_delivery
                  (mk_smtp (Some "") (fun _ => true))
                  (notice (new_row 0 1000 "r1" standup alice) alice)
                  with_standup) (or_intror eq_refl)).
Defined.

(** ** Run dates and target times *)

Lemma reachable_in_reachable tz w : reachable_in tz w -> reachable w.
Proof.
  induction 1; [apply reachable_initial | apply reachable_step; assumption].
Qed.

Lemma rows_after_fire_due rem us t r' :
  In r' (rows_after_fire rem us t) ->
  exists r, In r t /\
    ((id r <> id rem /\ r' = r) \/
     (id r = id rem /\ id r' = id rem /\
      when_ts r' = match rearmed rem us with
                   | Some i => when_ts rem + i
                   | None => when_ts r
                   end)).
Proof.
  unfold rows_after_fire; destruct (rearmed rem us) as [i|]; intros H.
  - apply update_where_id_cases in H; destruct H as (r1 & H1 & Hr').
    apply update_where_id_cases in H1; destruct H1 as (r & Hin & Hr1).
    exists r; split; [exact Hin|].
    destruct Hr1 as [[Hid ->]|[Hid ->]]; destruct Hr' as [[Hid' ->]|[Hid' ->]];
      simpl in *; auto; try contradiction.
  - apply update_where_id_cases in H; destruct H as (r & Hin & Hr').
    exists r; split; [exact Hin|].
    destruct Hr' as [[Hid ->]|[Hid ->]]; simpl; auto.
Qed.

Lemma timestamp_naive tz ts :
  timestamp tz (mk_datetime ts None) = ts - tz.
Proof. reflexivity. Qed.

Lemma change_timers_on_time q w t' js' us' l' :
  consistent w -> timers_on_time 0 w -> enabled q w -> made_in 0 q ->
  change q w t' js' ->
  timers_on_time 0 (mk_world t' us' js' l').
Proof.
  intros [Hval Hname Hsched Hone Huniq] Hon Hen Hzone Hch.
  unfold timers_on_time in *; simpl.
  destruct Hch as [tz now rid p u w r0 Hsel|tz now rid p u w Hfresh
                  |now rid m u w Hno|now rid m u w rem Hsel Hown Hin
                  |now rid m u w rem Hsel Hown Hout
                  |rid u w Hno|rid u w rem Hsel Hown
                  |rid u w Hno|rid u w rem Hsel Hown
                  |env j w Hsel|env j w rem Hsel|us w];
    try assumption.
  - (* create *)
    simpl in Hzone; subst tz.
    intros j r Hj Hr Hid Hwhen.
    apply in_arm in Hj; apply in_app_iff in Hr.
    destruct Hj as [[Hj Hne]| ->]; destruct Hr as [Hr|[<-|[]]].
    + eauto.
    + exfalso; apply Hne; rewrite (Hname j Hj), <- Hid; reflexivity.
    + exfalso; exact (select_by_id_none _ _ _ Hfresh Hr Hid).
    + reflexivity.
  - (* snooze *)
    intros j r' Hj Hr' Hid Hwhen.
    apply in_arm in Hj; apply update_where_id_cases in Hr'.
    destruct Hr' as (r & Hr & [[Heq ->]|[Hne ->]]);
      destruct Hj as [[Hj Hjne]| ->].
    + exfalso; apply Hjne; rewrite (Hname j Hj), <- Hid, <- Heq; reflexivity.
    + simpl; rewrite timestamp_naive; lia.
    + eauto.
    + simpl in Hid; contradiction.
  - (* snooze, the date refused *)
    intros j r' Hj Hr' Hid Hwhen.
    apply update_where_id_cases in Hr'.
    destruct Hr' as (r & Hr & [[Heq ->]|[Hne ->]]); [|eauto].
    simpl in Hwhen; congruence.
  - (* cancel *)
    intros j r' Hj Hr' Hid Hwhen.
    apply in_drop_job in Hj; destruct Hj as [Hj Hjne].
    apply update_where_id_cases in Hr'.
    destruct Hr' as (r & Hr & [[Heq ->]|[Hne ->]]); [|eauto].
    exfalso; apply Hjne; rewrite (Hname j Hj), <- Hid, <- Heq; reflexivity.
  - (* delete *)
    intros j r Hj Hr Hid Hwhen.
    apply in_drop_job in Hj; destruct Hj as [Hj _].
    apply filter_In in Hr; destruct Hr as [Hr _]; eauto.
  - (* expiry, reminder gone *)
    intros k r Hk Hr Hid Hwhen.
    apply in_drop_job in Hk; destruct Hk as [Hk _]; eauto.
  - (* expiry, reminder found *)
    simpl in Hen.
    destruct (select_by_id_some _ _ _ Hsel) as [Hrem Hidrem].
    assert (Hjname : job_id j = job_name (id rem))
      by (rewrite (Hname j Hen); congruence).
    intros k r' Hk Hr' Hid Hwhen'.
    apply rows_after_fire_due in Hr'.
    destruct Hr' as (r & Hr & [[Hne ->]|(Heq & Heq' & Hwhen)]).
    + apply jobs_after_fire_cases in Hk; destruct Hk as [Hk|(Ha & _ & _)].
      * apply in_drop_job in Hk; destruct Hk as [Hk _]; eauto.
      * congruence.
    + assert (Hold : In k (drop_job (job_id j) (jobs w)) -> False).
      { intros Hk'; apply in_drop_job in Hk'; destruct Hk' as [Hk' Hkne].
        apply Hkne; rewrite (Hname k Hk'), Hjname; congruence. }
      unfold jobs_after_fire in Hk.
      destruct (rearmed rem (users w)) as [i|]; [|destruct (Hold Hk)].
      destruct (in_datetime_range (when_ts rem + i)); [|destruct (Hold Hk)].
      apply (in_arm (id rem)) in Hk; destruct Hk as [[Hk Hkne]| ->].
      * destruct (Hold Hk).
      * simpl; rewrite timestamp_naive; lia.
Qed.

(** X13.  In every world reached by a process whose local zone is UTC,
    each pending timer of a reminder that is due at a date (a time within
    the years 1 to 9999) is for that time: the run date handed to the
    scheduler, read as [datetime.timestamp()] reads it, is the [when_ts]
    of the reminder the timer fires. *)
Theorem timers_are_on_time_in_utc w j r :
  reachable_in 0 w ->
  In j (jobs w) ->
  In r (reminders w) ->
  id r = args j ->
  -62135596800 <= when_ts r <= 253402300799 ->
  timestamp 0 (run_date j) = when_ts r.
Proof.
  intros Hreach Hj Hr Hid Hwhen; apply in_datetime_range_iff in Hwhen.
  revert j r Hj Hr Hid Hwhen; change (timers_on_time 0 w).
  induction Hreach as [|q w Hreach IH Hen Hzone].
  - intros j r [].
  - rewrite <- (world_eta (fst (perform q w))).
    eapply change_timers_on_time;
      [apply reachable_consistent, (reachable_in_reachable 0)
      | | | | apply perform_change]; eassumption.
Qed.

Lemma reachable_in_utc_standup_fired : reachable_in 0 standup_fired.
Proof.
  apply reachable_in_step; [|vm_compute; auto|exact I].
  apply reachable_in_step; [|exact I|reflexivity].
  apply reachable_in_step; [apply reachable_in_initial|exact I|exact I].
Qed.

Lemma timers_are_on_time_in_utc_witness :
  reachable_in 0 standup_fired /\
  In (mk_job (job_name "r1") (mk_datetime 87460 None) "r1")
     (jobs standup_fired) /\
  In (set_when_scheduled 87460 (new_row 0 1000 "r1" standup alice))
     (reminders standup_fired) /\
  -62135596800 <= 87460 <= 253402300799 /\
  timestamp 0 (mk_datetime 87460 None) = 87460.
Proof.
  assert (Hj : In (mk_job (job_name "r1") (mk_datetime 87460 None) "r1")
                 (jobs standup_fired)) by (vm_compute; auto).
  assert (Hr : In (set_when_scheduled 87460 (new_row 0 1000 "r1" standup alice))
                 (reminders standup_fired)) by (vm_compute; auto).
  assert (Hwhen : -62135596800 <= 87460 <= 253402300799)
    by (split; intros H; discriminate H).
  split; [exact reachable_in_utc_standup_fired|].
  repeat (split; [assumption|]).
  exact (timers_are_on_time_in_utc standup_fired _ _
           reachable_in_utc_standup_fired Hj Hr eq_refl Hwhen).
Defined.



(** ** Accounts *)

Lemma find_email_none e us :
  find (fun x => email x =? e)%string us = None <->
  (forall x, In x us -> email x <> e).
Proof.
  split.
  - intros H x Hx Heq; apply (find_none _ _ H) in Hx.
    apply String.eqb_neq in Hx; contradiction.
  - induction us as [|a us IH]; simpl; intros H; [reflexivity|].
    destruct (email a =? e)%string eqn:E.
    + apply String.eqb_eq in E; exfalso; apply (H a); auto.
    + apply IH; intros x Hx; apply H; auto.
Qed.

Lemma find_app_none {A} (p : A -> bool) l l' :
  find p l = None -> find p (l ++ l') = find p l'.
Proof.
  induction l as [|a l IH]; simpl; [reflexivity|].
  destruct (p a); [discriminate | exact IH].
Qed.

Lemma find_app_some {A} (p : A -> bool) l l' x :
  find p l = Some x -> find p (l ++ l') = Some x.
Proof.
  induction l as [|a l IH]; simpl; [discriminate|].
  destruct (p a); [auto | exact IH].
Qed.

Lemma uid_below_next us x : In x us -> uid x < next_user_id us.
Proof.
  unfold next_user_id; induction us as [|a us IH]; cbn [map fold_right In];
    [contradiction|].
  intros [->|Hx]; [lia|]; specialize (IH Hx); lia.
Qed.

Lemma register_fresh now phash e w :
  find (fun x => email x =? e)%string (users w) = None ->
  register now phash e w =
  (mk_world (reminders w)
     (users w ++ [mk_user (next_user_id (users w)) e phash now])
     (jobs w) (log w),
   Returned true).
Proof.
  intros H; unfold register, bind, get_user_by_email, insert_user.
  rewrite H; simpl; rewrite H; reflexivity.
Qed.

Lemma register_known now phash e w x :
  find (fun x => email x =? e)%string (users w) = Some x ->
  register now phash e w = (w, Raised (HTTPException 400 "User already exists")).
Proof.
  intros H; unfold register, bind, get_user_by_email; rewrite H; reflexivity.
Qed.

(** X15.  [register] with an email that no account has returns ok.  The
    account can then be looked up by that email: it carries the hash and the
    clock reading it was registered with, and an id above the id of every
    earlier account.  Lookups by any other email or id answer as before,
    and reminders, timers and log are untouched. *)
Theorem register_adds_account now phash e w :
  (forall x, In x (users w) -> email x <> e) ->
  snd (register now phash e w) = Returned true /\
  get_user_by_email e (fst (register now phash e w))
    = (fst (register now phash e w),
       Returned (Some (mk_user (next_user_id (users w)) e phash now))) /\
  (forall x, In x (users w) -> uid x < next_user_id (users w)) /\
  (forall e', e' <> e ->
     snd (get_user_by_email e' (fst (register now phash e w)))
       = snd (get_user_by_email e' w)) /\
  (forall i, i <> next_user_id (users w) ->
     snd (get_user_by_id i (fst (register now phash e w)))
       = snd (get_user_by_id i w)) /\
  reminders (fst (register now phash e w)) = reminders w /\
  jobs (fst (register now phash e w)) = jobs w /\
  log (fst (register now phash e w)) = log w.
Proof.
  intros Hnew; apply find_email_none in Hnew.
  rewrite (register_fresh now phash e w Hnew); simpl fst; simpl snd.
  unfold get_user_by_email, get_user_by_id; cbn [users fst snd].
  split; [reflexivity|].
  split.
  { rewrite (find_app_none _ _ _ Hnew); simpl.
    rewrite String.eqb_refl; reflexivity. }
  split; [intros x Hx; apply uid_below_next; exact Hx|].
  split; [|split].
  - intros e' Hne.
    destruct (find (fun x => (email x =? e')%string) (users w)) as [x|] eqn:E.
    + rewrite (find_app_some _ _ _ _ E); reflexivity.
    + rewrite (find_app_none _ _ _ E); simpl.
      destruct (e =? e')%string eqn:E'; [|reflexivity].
      apply String.eqb_eq in E'; congruence.
  - intros i Hne.
    destruct (find (fun x => uid x =? i) (users w)) as [x|] eqn:E.
    + rewrite (find_app_some _ _ _ _ E); reflexivity.
    + rewrite (find_app_none _ _ _ E); simpl.
      destruct (next_user_id (users w) =? i) eqn:E'; [|reflexivity].
      apply Z.eqb_eq in E'; congruence.
  - auto.
Qed.

Lemma register_adds_account_witness :
  (forall x, In x (users registered) -> email x <> "carol@example.org") /\
  get_user_by_email "carol@example.org"
    (fst (register 1200 "z" "carol@example.org" registered))
    = (fst (register 1200 "z" "carol@example.org" registered),
       Returned (Some (mk_user 3 "carol@example.org" "z" 1200))).
Proof.
  assert (Hnew : forall x, In x (users registered) ->
                           email x <> "carol@example.org").
  { intros x [<-|[<-|[]]]; discriminate. }
  split; [exact Hnew|].
  exact (proj1 (proj2 (register_adds_account 1200 "z" "carol@example.org"
                         registered Hnew))).
Defined.

(** X16.  [register] with the email of an existing account raises the HTTP
    error 400 and changes nothing: the account keeps its hash, and no row
    is added. *)
Theorem register_rejects_known_email now phash e w x :
  In x (users w) ->
  email x = e ->
  register now phash e w = (w, Raised (HTTPException 400 "User already exists")).
Proof.
  intros Hx He.
  destruct (find (fun x => email x =? e)%string (users w)) as [y|] eqn:E.
  - exact (register_known now phash e w y E).
  - exfalso; exact (proj1 (find_email_none _ _) E x Hx He).
Qed.

Lemma register_rejects_known_email_witness :
  In alice (users registered) /\
  email alice = "alice@example.org" /\
  register 1200 "z" "alice@example.org" registered
    = (registered, Raised (HTTPException 400 "User already exists")).
Proof.
  assert (Hx : In alice (users registered)) by (vm_compute; auto).
  split; [exact Hx|]; split; [reflexivity|].
  exact (register_rejects_known_email 1200 "z" "alice@example.org" registered
           alice Hx eq_refl).
Defined.

(** X17.  [register] keeps the accounts apart: when no two accounts share
    an email or an id before the call, none do after it, whatever its
    arguments and whether it succeeds or not. *)
Theorem register_keeps_accounts_apart now phash e w :
  NoDup (map email (users w)) ->
  NoDup (map uid (users w)) ->
  NoDup (map email (users (fst (register now phash e w)))) /\
  NoDup (map uid (users (fst (register now phash e w)))).
Proof.
  intros Hemails Hids.
  assert (Hsnoc : forall (A : Type) (l : list A) (a : A),
            NoDup l -> ~ In a l -> NoDup (l ++ [a])).
  { intros A l a Hl Ha; induction l as [|b l IH]; simpl.
    - constructor; [intros [] | constructor].
    - inversion Hl as [|y l' Hb Hl']; subst.
      constructor.
      + rewrite in_app_iff; simpl; intros [H|[H|[]]]; [auto|].
        apply Ha; left; symmetry; exact H.
      + apply IH; [exact Hl' | intros H; apply Ha; right; exact H]. }
  destruct (find (fun x => email x =? e)%string (users w)) as [y|] eqn:E.
  - rewrite (register_known now phash e w y E); auto.
  - rewrite (register_fresh now phash e w E); simpl.
    rewrite !map_app; simpl; split; apply Hsnoc; auto.
    + intros Hin; apply in_map_iff in Hin; destruct Hin as (x & He & Hx).
      exact (proj1 (find_email_none _ _) E x Hx He).
    + intros Hin; apply in_map_iff in Hin; destruct Hin as (x & Hi & Hx).
      pose proof (uid_below_next _ _ Hx); lia.
Qed.

Lemma register_keeps_accounts_apart_witness :
  NoDup (map email (users registered)) /\
  NoDup (map uid (users registered)) /\
  NoDup (map uid (users (fst (register 1200 "z" "carol@example.org"
                                registered)))).
Proof.
  assert (He : NoDup (map email (users registered))).
  { repeat constructor; simpl; intros H;
      repeat (destruct H as [H|H]; try discriminate); exact H. }
  assert (Hi : NoDup (map uid (users registered))).
  { repeat constructor; simpl; intros H;
      repeat (destruct H as [H|H]; try discriminate); exact H. }
  repeat (split; [assumption|]).
  exact (proj2 (register_keeps_accounts_apart 1200 "z" "carol@example.org"
                  registered He Hi)).
Defined.

(** ** Logging in *)

Lemma login_returns lib username password w tok kind :
  snd (login lib username password w) = Returned (tok, kind) ->
  exists u,
    snd (get_user_by_email username w) = Returned (Some u) /\
    In u (users w) /\ tok = access_token_for lib (uid u).
Proof.
  unfold login, bind, get_user_by_email; cbn [fst snd].
  destruct (find (fun x => email x =? username)%string (users w)) as [u|] eqn:E;
    [|discriminate].
  destruct (verify_password lib password (password_hash u)); [|discriminate].
  simpl; intros H; injection H as <- <-.
  apply find_some in E; destruct E as [Hu _].
  exists u; auto.
Qed.

(** X18.  [login] never changes the world.  It hands out a token only for
    an account that has the email given and whose stored hash verifies the
    password given, and the token is the one made for the id of that
    account.  In every other case it raises the HTTP error 401 with one and
    the same detail, whether the email is unknown or the password wrong. *)
Theorem login_checks_credentials lib username password w :
  fst (login lib username password w) = w /\
  (snd (login lib username password w)
     = Raised (HTTPException 401 "Invalid credentials") \/
   exists u,
     In u (users w) /\ email u = username /\
     verify_password lib password (password_hash u) = true /\
     snd (login lib username password w)
       = Returned (access_token_for lib (uid u), "bearer")) /\
  ((forall u, In u (users w) -> email u <> username) ->
   snd (login lib username password w)
     = Raised (HTTPException 401 "Invalid credentials")) /\
  (forall u,
     snd (get_user_by_email username w) = Returned (Some u) ->
     verify_password lib password (password_hash u) = false ->
     snd (login lib username password w)
       = Raised (HTTPException 401 "Invalid credentials")).
Proof.
  unfold login, bind, get_user_by_email; cbn [fst snd].
  destruct (find (fun x => email x =? username)%string (users w)) as [u|] eqn:E.
  - apply find_some in E; destruct E as [Hu He]; apply String.eqb_eq in He.
    destruct (verify_password lib password (password_hash u)) eqn:V; simpl.
    + split; [reflexivity|].
      split; [right; exists u; auto|].
      split; [intros Hnone; exfalso; exact (Hnone u Hu He)|].
      intros u' Hu' V'; injection Hu' as <-; congruence.
    + split; [reflexivity|]; split; [left; reflexivity|].
      split; reflexivity.
  - simpl; split; [reflexivity|]; split; [left; reflexivity|].
    split; [reflexivity|].
    intros u' Hu'; discriminate.
Qed.

Lemma login_checks_credentials_witness :
  (forall u, In u (users registered) -> email u <> "carol@example.org") /\
  snd (login sample_lib "carol@example.org" "x" registered)
    = Raised (HTTPException 401 "Invalid credentials") /\
  snd (get_user_by_email "alice@example.org" registered)
    = Returned (Some alice) /\
  verify_password sample_lib "wrong" (password_hash alice) = false /\
  snd (login sample_lib "alice@example.org" "wrong" registered)
    = Raised (HTTPException 401 "Invalid credentials").
Proof.
  assert (Hnone : forall u, In u (users registered) ->
                            email u <> "carol@example.org").
  { intros x [<-|[<-|[]]]; discriminate. }
  assert (Hfound : snd (get_user_by_email "alice@example.org" registered)
                   = Returned (Some alice)) by reflexivity.
  assert (Hwrong : verify_password sample_lib "wrong" (password_hash alice)
                   = false) by reflexivity.
  destruct (login_checks_credentials sample_lib "carol@example.org" "x"
              registered) as (_ & _ & Hunknown & _).
  destruct (login_checks_credentials sample_lib "alice@example.org" "wrong"
              registered) as (_ & _ & _ & Hbad).
  split; [exact Hnone|].
  split; [exact (Hunknown Hnone)|].
  repeat (split; [assumption|]).
  exact (Hbad alice Hfound Hwrong).
Defined.

(** ** The current user *)

Lemma prefix_append p h :
  prefix p h = true -> exists rest, h = (p ++ rest)%string.
Proof.
  revert h; induction p as [|a p IH]; intros h.
  - intros _; exists h; reflexivity.
  - destruct h as [|b h]; simpl; [discriminate|].
    destruct (Ascii.ascii_dec a b) as [->|]; [|discriminate].
    intros H; destruct (IH h H) as (rest & ->).
    exists rest; reflexivity.
Qed.

Lemma truthy_str_false s : truthy_str s = false -> s = None \/ s = Some "".
Proof.
  destruct s as [s|]; simpl; [|auto].
  intros H; apply negb_false_iff, String.eqb_eq in H; subst; auto.
Qed.

(** X19.  [get_current_user] never changes the world, and the user it
    returns is always a row of the users table.  It returns a user in two
    cases only: the request has no Authorization header (or an empty one)
    and the user is the one with id 1; or the header is [Bearer ], a space
    and a token whose subject is the id of the user.  A non-empty header
    that does not start with [Bearer ] and a space is refused with the HTTP
    error 401, whatever the users table holds. *)
Theorem get_current_user_returns_registered_user lib authorization w :
  fst (get_current_user lib authorization w) = w /\
  (forall u,
     snd (get_current_user lib authorization w) = Returned u ->
     In u (users w) /\
     (((authorization = None \/ authorization = Some "") /\ uid u = 1) \/
      exists token,
        authorization = Some ("Bearer " ++ token)%string /\
        token_subject lib token = Returned (uid u))) /\
  (forall h,
     authorization = Some h -> h <> "" -> prefix "Bearer " h = false ->
     snd (get_current_user lib authorization w)
       = Raised (HTTPException 401
                   "Invalid auth header (expected 'Bearer <token>')")).
Proof.
  split; [|split].
  - unfold get_current_user.
    destruct (truthy_str authorization).
    + destruct (negb (prefix "Bearer " _)); [reflexivity|].
      destruct (token_subject lib _); [|reflexivity].
      unfold bind, get_user_by_id; cbn [fst snd].
      destruct (find _ (users w)); reflexivity.
    + unfold bind, get_user_by_id; cbn [fst snd].
      destruct (find _ (users w)); reflexivity.
  - intros u; unfold get_current_user.
    destruct (truthy_str authorization) eqn:T.
    + destruct authorization as [h|]; [|discriminate].
      destruct (prefix "Bearer " h) eqn:P; cbn [negb]; [|discriminate].
      destruct (prefix_append _ _ P) as (token & ->).
      change (after_first_space ("Bearer " ++ token)) with token.
      destruct (token_subject lib token) as [sub|e] eqn:S; [|discriminate].
      unfold bind, get_user_by_id; cbn [fst snd].
      destruct (find (fun x => uid x =? sub) (users w)) as [u0|] eqn:F;
        [|discriminate].
      intros Hu; injection Hu as <-.
      apply find_some in F; destruct F as [Hu Hid].
      apply Z.eqb_eq in Hid; subst sub.
      split; [exact Hu|]; right; exists token; auto.
    + apply truthy_str_false in T.
      unfold bind, get_user_by_id; cbn [fst snd].
      destruct (find (fun x => uid x =? 1) (users w)) as [u0|] eqn:F;
        [|discriminate].
      intros Hu; injection Hu as <-.
      apply find_some in F; destruct F as [Hu Hid].
      apply Z.eqb_eq in Hid; auto.
  - intros h -> Hne P; unfold get_current_user, truthy_str.
    apply String.eqb_neq in Hne; rewrite Hne, P; reflexivity.
Qed.

Lemma get_current_user_returns_registered_user_witness :
  snd (get_current_user sample_lib (Some "Bearer t1") registered)
    = Returned alice /\
  In alice (users registered) /\
  prefix "Bearer " "Basic t1" = false /\
  snd (get_current_user sample_lib (Some "Basic t1") registered)
    = Raised (HTTPException 401
                "Invalid auth header (expected 'Bearer <token>')").
Proof.
  assert (Hret : snd (get_current_user sample_lib (Some "Bearer t1") registered)
                 = Returned alice) by reflexivity.
  assert (Hpre : prefix "Bearer " "Basic t1" = false) by reflexivity.
  destruct (get_current_user_returns_registered_user sample_lib
              (Some "Bearer t1") registered) as (_ & Hin & _).
  destruct (get_current_user_returns_registered_user sample_lib
              (Some "Basic t1") registered) as (_ & _ & Hbad).
  split; [exact Hret|].
  split; [exact (proj1 (Hin alice Hret))|].
  split; [exact Hpre|].
  apply (Hbad "Basic t1" eq_refl); [discriminate | exact Hpre].
Defined.

(** ** Requests without credentials *)



(** ** From login to the current user *)

Lemma find_by_uid us u :
  NoDup (map uid us) -> In u us ->
  find (fun x => uid x =? uid u) us = Some u.
Proof.
  induction us as [|a us IH]; simpl; intros H Hu; [contradiction|].
  inversion H as [|x l Hnot Hrest]; subst.
  destruct Hu as [->|Hu]; [rewrite Z.eqb_refl; reflexivity|].
  destruct (uid a =? uid u) eqn:E; [|auto].
  apply Z.eqb_eq in E; exfalso; apply Hnot.
  rewrite E; apply in_map; exact Hu.
Qed.

Lemma prefix_of_append p s : prefix p (p ++ s) = true.
Proof.
  induction p as [|a p IH]; simpl.
  - destruct s; reflexivity.
  - destruct (Ascii.ascii_dec a a); [exact IH | congruence].
Qed.

(** X21.  Let no two accounts share an id, and let the token library give
    back the subject it was asked to sign.  Then the token a successful
    [login] returns, sent as [Bearer ] and the token, makes
    [get_current_user] return the account that has the email used to log
    in. *)
Theorem login_token_names_the_account lib username password w tok kind :
  NoDup (map uid (users w)) ->
  (forall u, In u (users w) ->
     token_subject lib (access_token_for lib (uid u)) = Returned (uid u)) ->
  snd (login lib username password w) = Returned (tok, kind) ->
  exists u,
    snd (get_user_by_email username w) = Returned (Some u) /\
    get_current_user lib (Some ("Bearer " ++ tok)%string) w = (w, Returned u).
Proof.
  intros Hids Hlib Hlogin.
  destruct (login_returns lib username password w tok kind
              Hlogin) as (u & Hfind & Hu & ->).
  exists u; split; [exact Hfind|].
  unfold get_current_user.
  change (truthy_str (Some ("Bearer " ++ access_token_for lib (uid u))%string))
    with true; cbv iota.
  assert (P : prefix "Bearer " ("Bearer " ++ access_token_for lib (uid u))
              = true).
  { apply prefix_of_append. }
  rewrite P; cbn [negb].
  change (after_first_space ("Bearer " ++ access_token_for lib (uid u)))
    with (access_token_for lib (uid u)).
  rewrite (Hlib u Hu).
  unfold bind, get_user_by_id; cbn [fst snd].
  rewrite (find_by_uid _ _ Hids Hu); reflexivity.
Qed.

Lemma login_token_names_the_account_witness :
  NoDup (map uid (users registered)) /\
  (forall u, In u (users registered) ->
     token_subject sample_lib (access_token_for sample_lib (uid u))
       = Returned (uid u)) /\
  snd (login sample_lib "bob@example.org" "y" registered)
    = Returned ("t2", "bearer") /\
  exists u,
    snd (get_user_by_email "bob@example.org" registered) = Returned (Some u) /\
    get_current_user sample_lib (Some "Bearer t2") registered
      = (registered, Returned u).
Proof.
  assert (Hi : NoDup (map uid (users registered))).
  { repeat constructor; simpl; intros H;
      repeat (destruct H as [H|H]; try discriminate); exact H. }
  assert (Hlib : forall u, In u (users registered) ->
            token_subject sample_lib (access_token_for sample_lib (uid u))
            = Returned (uid u)).
  { intros u [<-|[<-|[]]]; reflexivity. }
  assert (Hlogin : snd (login sample_lib "bob@example.org" "y" registered)
                   = Returned ("t2", "bearer")) by reflexivity.
  repeat (split; [assumption|]).
  exact (login_token_names_the_account sample_lib "bob@example.org" "y"
           registered "t2" "bearer" Hi Hlib Hlogin).
Defined.
